(** * Verification of the p115strgmsub plugin (MoviePilot-Plugins)

    Shallow embedding of the parts of [utils/file_matcher.py],
    [p115client.py], [handlers/sync.py] and [__init__.py] that decide the
    episode matcher, the subscription filter, the retry wrapper, the share
    transfer, the per-run transfer counter and the persisted history.

    Strings are byte strings (UTF-8 encoded text): a Chinese character of
    a pattern is the three-byte sequence it has in the source file.  The
    regex classes [\d] and [\s] are taken over ASCII, and [str.lower] is the
    ASCII lower-casing. *)

From Stdlib Require Import String Ascii List Arith Bool Lia ZArith QArith Lqa.
Import ListNotations.
Open Scope string_scope.
Open Scope bool_scope.
Open Scope nat_scope.
Set Warnings "-register-all".

(* ------------------------------------------------------------------ *)
(** ** Characters and strings *)

Definition is_digit (c : ascii) : bool :=
  let n := nat_of_ascii c in (48 <=? n) && (n <=? 57).

(** Python's [\s] restricted to ASCII: tab, LF, VT, FF, CR, the
    separators 0x1c-0x1f and space. *)
Definition is_space (c : ascii) : bool :=
  let n := nat_of_ascii c in
  ((9 <=? n) && (n <=? 13)) || ((28 <=? n) && (n <=? 32)).

Definition lower_char (c : ascii) : ascii :=
  let n := nat_of_ascii c in
  if (65 <=? n) && (n <=? 90) then ascii_of_nat (n + 32) else c.

Fixpoint lower (s : string) : string :=
  match s with
  | EmptyString => EmptyString
  | String c r => String (lower_char c) (lower r)
  end.

Definition char_in (cs : string) (c : ascii) : bool :=
  let fix go s := match s with
                  | EmptyString => false
                  | String d r => Ascii.eqb c d || go r
                  end in go cs.

(** Python's [needle in hay] on strings. *)
Fixpoint contains (needle hay : string) : bool :=
  prefix needle hay ||
  match hay with
  | EmptyString => false
  | String _ r => contains needle r
  end.

Fixpoint digits_val_acc (acc : nat) (s : string) : nat :=
  match s with
  | EmptyString => acc
  | String c r => digits_val_acc (acc * 10 + (nat_of_ascii c - 48)) r
  end.

(** [int(group)] for a group of ASCII digits. *)
Definition digits_val (s : string) : nat := digits_val_acc 0 s.

Fixpoint str_of_nat_aux (fuel n : nat) (acc : string) : string :=
  match fuel with
  | O => acc
  | S f =>
      let acc' := String (ascii_of_nat (48 + n mod 10)) acc in
      if n <? 10 then acc' else str_of_nat_aux f (n / 10) acc'
  end.

(** [str(n)] / f-string interpolation of a non-negative int. *)
Definition str_of_nat (n : nat) : string := str_of_nat_aux (S n) n EmptyString.

(** The three UTF-8 encoded characters of the season / episode patterns. *)
Definition CH_DI : string := "第".   (* U+7B2C *)
Definition CH_JI : string := "季".   (* U+5B63 *)
Definition CH_JI2 : string := "集".  (* U+96C6 *)

(* ------------------------------------------------------------------ *)
(** ** A backtracking matcher for the fixed patterns of the source

    A pattern denotes the list of its matches at the start of the input,
    in the order Python's backtracking engine tries them (greedy
    quantifiers first try the longest repetition).  [re.search] returns
    the first match at the leftmost position where there is one. *)

Definition P (A : Type) : Type := string -> list (A * string).

Definition ret {A} (a : A) : P A := fun s => [(a, s)].

Definition bind {A B} (p : P A) (f : A -> P B) : P B :=
  fun s => flat_map (fun ar => f (fst ar) (snd ar)) (p s).

Definition orelse {A} (p q : P A) : P A := fun s => app (p s) (q s).

Definition sat (f : ascii -> bool) : P ascii :=
  fun s => match s with
           | String c r => if f c then [(c, r)] else []
           | EmptyString => []
           end.

(** A literal; [ci] makes it case-insensitive (the [re.IGNORECASE] flag). *)
Fixpoint lit (ci : bool) (t : string) : P unit :=
  match t with
  | EmptyString => ret tt
  | String c r =>
      bind (sat (fun d => if ci then Ascii.eqb (lower_char c) (lower_char d)
                          else Ascii.eqb c d))
           (fun _ => lit ci r)
  end.

(** [X*] for a character class [X], greedy. *)
Fixpoint star (f : ascii -> bool) (s : string) : list (string * string) :=
  match s with
  | String c r =>
      if f c then app (map (fun wr => (String c (fst wr), snd wr)) (star f r)) [("", s)]
      else [("", s)]
  | EmptyString => [("", s)]
  end.

(** [X+], greedy. *)
Definition plus (f : ascii -> bool) : P string :=
  bind (sat f) (fun c => bind (star f) (fun w => ret (String c w))).

(** [X{1,2}], greedy. *)
Definition rep12 (f : ascii -> bool) : P string :=
  fun s => match s with
           | String c1 r1 =>
               if f c1 then
                 app match r1 with
                 | String c2 r2 => if f c2 then [(String c1 (String c2 ""), r2)] else []
                 | EmptyString => []
                 end [(String c1 "", r1)]
               else []
           | EmptyString => []
           end.

(** [t?] for a literal [t], greedy. *)
Definition opt_lit (t : string) : P unit := orelse (lit false t) (ret tt).

(** Negative lookahead [(?!X)]. *)
Definition not_followed (f : ascii -> bool) : P unit :=
  fun s => match s with
           | String c _ => if f c then [] else [(tt, s)]
           | EmptyString => [(tt, s)]
           end.

Fixpoint search {A} (p : P A) (s : string) : option A :=
  match p s with
  | (a, _) :: _ => Some a
  | [] => match s with
          | EmptyString => None
          | String _ r => search p r
          end
  end.

Definition search_b {A} (p : P A) (s : string) : bool :=
  match search p s with Some _ => true | None => false end.

Notation "p >>= f" := (bind p f) (at level 50, left associativity).

Definition is_S (c : ascii) : bool := char_in "Ss" c.
Definition is_E (c : ascii) : bool := char_in "Ee" c.

(** [r'[Ss](\d{1,2})[Ee]'] *)
Definition re_season_e : P nat :=
  sat is_S >>= fun _ => rep12 is_digit >>= fun d => sat is_E >>= fun _ => ret (digits_val d).

(** [r'第\s*(\d{1,2})\s*季'] *)
Definition re_cn_season : P nat :=
  lit false CH_DI >>= fun _ => star is_space >>= fun _ => rep12 is_digit >>= fun d =>
  star is_space >>= fun _ => lit false CH_JI >>= fun _ => ret (digits_val d).

(** [r'[Ss]eason\s*(\d{1,2})'] with [re.IGNORECASE] *)
Definition re_en_season : P nat :=
  lit true "season" >>= fun _ => star is_space >>= fun _ => rep12 is_digit >>= fun d =>
  ret (digits_val d).

(** [r'[Ss](\d{1,2})[Ee](\d{1,2})'] *)
Definition re_sxex : P (nat * nat) :=
  sat is_S >>= fun _ => rep12 is_digit >>= fun d1 => sat is_E >>= fun _ =>
  rep12 is_digit >>= fun d2 => ret (digits_val d1, digits_val d2).

(** [r'[Ss]\d+[Ee]|第\s*\d+\s*季|[Ss]eason\s*\d+'] with [re.IGNORECASE] *)
Definition re_any_season : P unit :=
  orelse (sat is_S >>= fun _ => plus is_digit >>= fun _ => sat is_E >>= fun _ => ret tt)
  (orelse (lit false CH_DI >>= fun _ => star is_space >>= fun _ => plus is_digit >>= fun _ =>
           star is_space >>= fun _ => lit false CH_JI)
          (lit true "season" >>= fun _ => star is_space >>= fun _ => plus is_digit >>= fun _ =>
           ret tt)).

(* ------------------------------------------------------------------ *)
(** ** [SubscribeFilter] *)

(** A filter field is a Python [str] or [None]. *)
Record SubscribeFilter := mkSubscribeFilter {
  quality : option string;
  resolution : option string;
  effect : option string;
  strict : bool
}.

(** A share-file dict: its ["name"], ["is_dir"] and ["children"] keys
    (a missing key is read with the default of [file.get]). *)
Inductive node : Type :=
  mknode (name : string) (is_dir : bool) (children : list node).

Definition node_name (n : node) : string := match n with mknode nm _ _ => nm end.
Definition node_is_dir (n : node) : bool := match n with mknode _ d _ => d end.
Definition node_children (n : node) : list node := match n with mknode _ _ ch => ch end.

(** Truthiness of an optional [str]: [None] and [""] are false. *)
Definition truthy (o : option string) : bool :=
  match o with Some s => negb (String.eqb s "") | None => false end.

Section Matcher.

(** [re.search(pattern, file_name, re.IGNORECASE)] is not [None], for the
    user-configured patterns of a subscription. *)
Variable re_search : string -> string -> bool.

Definition has_filters (f : SubscribeFilter) : bool :=
  truthy (quality f) || truthy (resolution f) || truthy (effect f).

(** One rule block of [SubscribeFilter.match]; the state is
    [(score, matched_count, total_rules)], and [None] is the early
    [return False, 0]. *)
Definition check_rule (rule : option string) (strict_mode : bool) (file_name : string)
    (st : option (nat * nat * nat)) : option (nat * nat * nat) :=
  match st with
  | None => None
  | Some (score, matched_count, total_rules) =>
      match rule with
      | Some pat =>
          if String.eqb pat "" then st
          else if re_search pat file_name
               then Some (score + 100, S matched_count, S total_rules)
               else if strict_mode then None
                    else Some (score, matched_count, S total_rules)
      | None => st
      end
  end.

(** [SubscribeFilter.match] *)
Definition filter_match (f : SubscribeFilter) (file_name : string) : bool * nat :=
  if negb (has_filters f) then (true, 0) else
  match check_rule (effect f) (strict f) file_name
          (check_rule (resolution f) (strict f) file_name
             (check_rule (quality f) (strict f) file_name (Some (0, 0, 0)))) with
  | None => (false, 0)
  | Some (score, _, _) => (true, score)
  end.

Definition rule_fails (rule : option string) (file_name : string) : bool :=
  match rule with
  | Some pat => truthy rule && negb (re_search pat file_name)
  | None => false
  end.

(** [SubscribeFilter.is_perfect_match] *)
Definition is_perfect_match (f : SubscribeFilter) (file_name : string) : bool :=
  if negb (has_filters f) then true
  else if rule_fails (quality f) file_name then false
  else if rule_fails (resolution f) file_name then false
  else if rule_fails (effect f) file_name then false
  else true.

End Matcher.

(* ------------------------------------------------------------------ *)
(** ** [pathlib.Path(name).suffix] *)

Fixpoint split_on (sep : ascii) (s : string) : list string :=
  match s with
  | EmptyString => [""]
  | String c r =>
      if Ascii.eqb c sep then "" :: split_on sep r
      else match split_on sep r with
           | w :: ws => String c w :: ws
           | [] => [String c ""]
           end
  end.

(** [PurePosixPath(s).name]: empty and ["."] components are dropped. *)
Definition path_name (s : string) : string :=
  last (filter (fun w => negb (String.eqb w "") && negb (String.eqb w "."))
               (split_on "/" s)) "".

Fixpoint last_dot (s : string) (pos : nat) (found : option nat) : option nat :=
  match s with
  | EmptyString => found
  | String c r => last_dot r (S pos) (if Ascii.eqb c "." then Some pos else found)
  end.

(** [PurePath.suffix]: [i = name.rfind('.')]; the suffix is [name[i:]]
    when [0 < i < len(name) - 1], otherwise [""]. *)
Definition suffix (file_name : string) : string :=
  let nm := path_name file_name in
  match last_dot nm 0 None with
  | Some i =>
      if (0 <? i) && (i <? String.length nm - 1)
      then substring i (String.length nm - i) nm else ""
  | None => ""
  end.

Definition VIDEO_EXTENSIONS : list string :=
  [".mkv"; ".mp4"; ".avi"; ".rmvb"; ".wmv"; ".flv"; ".ts"; ".m2ts"].

(** [Path(file_name).suffix.lower() in FileMatcher.VIDEO_EXTENSIONS] *)
Definition is_video (file_name : string) : bool :=
  existsb (String.eqb (lower (suffix file_name))) VIDEO_EXTENSIONS.

(* ------------------------------------------------------------------ *)
(** ** [FileMatcher] *)

Definition found_other (m : option nat) (target_season : nat) : bool :=
  match m with Some found => negb (found =? target_season) | None => false end.

(** [FileMatcher._contains_other_season] *)
Definition contains_other_season (file_name : string) (target_season : nat) : bool :=
  found_other (search re_season_e file_name) target_season
  || found_other (search re_cn_season file_name) target_season
  || found_other (search re_en_season file_name) target_season.

(** [FileMatcher._matches_target_season]: the first pattern found decides. *)
Definition matches_target_season (file_name : string) (target_season : nat) : bool :=
  match search re_season_e file_name with
  | Some found => found =? target_season
  | None =>
      match search re_cn_season file_name with
      | Some found => found =? target_season
      | None =>
          match search re_en_season file_name with
          | Some found => found =? target_season
          | None => false
          end
      end
  end.

(** [FileMatcher._extract_episode_from_sxex] *)
Definition extract_episode_from_sxex (file_name : string) : option (nat * nat) :=
  search re_sxex file_name.

Definition is_sep (c : ascii) : bool := char_in ".-_" c || is_space c.

(** [loose_patterns] of [match_episode_file], for [episode]:
    [rf'第\s*0?{episode}\s*集'], [rf'[Ee][Pp]0?{episode}(?!\d)'],
    [rf'[\[\(\s\.\-_][Ee]0?{episode}[\]\)\s\.\-_]'] (all [re.IGNORECASE]). *)
Definition loose_patterns (episode : nat) : list (P unit) :=
  let ep := str_of_nat episode in
  [ lit false CH_DI >>= fun _ => star is_space >>= fun _ => opt_lit "0" >>= fun _ =>
      lit false ep >>= fun _ => star is_space >>= fun _ => lit false CH_JI2;
    sat is_E >>= fun _ => sat (char_in "Pp") >>= fun _ => opt_lit "0" >>= fun _ =>
      lit false ep >>= fun _ => not_followed is_digit;
    sat (fun c => char_in "[(" c || is_sep c) >>= fun _ => sat is_E >>= fun _ =>
      opt_lit "0" >>= fun _ => lit false ep >>= fun _ =>
      sat (fun c => char_in "])" c || is_sep c) >>= fun _ => ret tt ].

(** [loosest_patterns]: [rf'[\.\s\-_]0?{episode}[\.\s\-_]']. *)
Definition loosest_patterns (episode : nat) : list (P unit) :=
  let ep := str_of_nat episode in
  [ sat is_sep >>= fun _ => opt_lit "0" >>= fun _ => lit false ep >>= fun _ =>
      sat is_sep >>= fun _ => ret tt ].

(** Where the loop body of [match_episode_file] puts one non-directory
    file: skipped ([continue] without append), or appended with its
    filter score to [strict_matches], [loose_matches] or [loosest_matches]. *)
Inductive tier : Type :=
  | Skip
  | Strict (filter_score : nat)
  | Loose (filter_score : nat)
  | Loosest (filter_score : nat).

Section EpisodeMatcher.

Variable re_search : string -> string -> bool.

(** The filter step: [(matched, filter_score)], [(True, 0)] when there is no
    filter or it has no rule. *)
Definition apply_filter (subscribe_filter : option SubscribeFilter) (file_name : string)
    : bool * nat :=
  match subscribe_filter with
  | Some f => if has_filters f then filter_match re_search f file_name else (true, 0)
  | None => (true, 0)
  end.

(** The loop body of [match_episode_file] for a file that is not a directory. *)
Definition classify (subscribe_filter : option SubscribeFilter) (season episode : nat)
    (file_name : string) : tier :=
  if negb (is_video file_name) then Skip
  else if contains_other_season file_name season then Skip
  else
    let '(matched, filter_score) := apply_filter subscribe_filter file_name in
    if negb matched then Skip
    else
      match extract_episode_from_sxex file_name with
      | Some (found_season, found_episode) =>
          if (found_season =? season) && (found_episode =? episode)
          then Strict filter_score else Skip
      | None =>
          match find (fun p => search_b p file_name) (loose_patterns episode) with
          | Some _ =>
              if (season =? 1) || matches_target_season file_name season
              then Loose filter_score
              else if negb (search_b re_any_season file_name)
                   then Loose filter_score
                   else Skip
          | None =>
              if matches_target_season file_name season
              then if existsb (fun p => search_b p file_name) (loosest_patterns episode)
                   then Loosest filter_score else Skip
              else Skip
          end
      end.

(** The three candidate lists, in append order. *)
Record cands := mkcands {
  strict_matches : list (node * nat);
  loose_matches : list (node * nat);
  loosest_matches : list (node * nat)
}.

Definition no_cands : cands := mkcands [] [] [].

Definition add_cand (f : node) (t : tier) (c : cands) : cands :=
  match t with
  | Skip => c
  | Strict sc => mkcands (strict_matches c ++ [(f, sc)]) (loose_matches c) (loosest_matches c)
  | Loose sc => mkcands (strict_matches c) (loose_matches c ++ [(f, sc)]) (loosest_matches c)
  | Loosest sc => mkcands (strict_matches c) (loose_matches c) (loosest_matches c ++ [(f, sc)])
  end.

(** [list.sort(key=lambda x: x[1], reverse=True)]: stable, so elements
    with equal keys keep their order. *)
Fixpoint insert_desc (x : node * nat) (l : list (node * nat)) : list (node * nat) :=
  match l with
  | [] => [x]
  | y :: r => if snd y <=? snd x then x :: y :: r else y :: insert_desc x r
  end.

Fixpoint sort_desc (l : list (node * nat)) : list (node * nat) :=
  match l with
  | [] => []
  | x :: r => insert_desc x (sort_desc r)
  end.

Definition first_of (l : list (node * nat)) : option node :=
  match sort_desc l with
  | [] => None
  | (f, _) :: _ => Some f
  end.

(** The final [if strict_matches: ... return None] of [match_episode_file]. *)
Definition select (c : cands) : option node :=
  match strict_matches c with
  | _ :: _ => first_of (strict_matches c)
  | [] =>
      match loose_matches c with
      | _ :: _ => first_of (loose_matches c)
      | [] => first_of (loosest_matches c)
      end
  end.

(** [not sub_files] *)
Definition is_empty {A} (l : list A) : bool := match l with [] => true | _ => false end.

(** The [for file in files] loop, with [sub] for the recursive call
    [FileMatcher.match_episode_file(sub_files, ...)] on a directory:
    [inl m] is the early [return matched] of a directory whose subtree
    matched, [inr c] the candidates at the end of the loop. *)
Definition scan_with (subscribe_filter : option SubscribeFilter) (season episode : nat)
    (sub : node -> option node) : list node -> cands -> node + cands :=
  fix scan (files : list node) (c : cands) : node + cands :=
    match files with
    | [] => inr c
    | file :: rest =>
        if node_is_dir file then
          if is_empty (node_children file) then scan rest c
          else
            match sub file with
            | Some matched => inl matched
            | None => scan rest c
            end
        else
          scan rest (add_cand file (classify subscribe_filter season episode (node_name file)) c)
    end.

Definition finish (r : node + cands) : option node :=
  match r with
  | inl m => Some m
  | inr c => select c
  end.

(** [match_episode_file] applied to the children of a directory node. *)
Fixpoint match_dir (subscribe_filter : option SubscribeFilter) (season episode : nat)
    (dir : node) {struct dir} : option node :=
  match dir with
  | mknode _ _ sub_files =>
      finish (scan_with subscribe_filter season episode
                (match_dir subscribe_filter season episode) sub_files no_cands)
  end.

(** [FileMatcher.match_episode_file(files, title, season, episode,
    subscribe_filter)]; [title] is not used by the body. *)
Definition match_episode_file (files : list node) (title : string) (season episode : nat)
    (subscribe_filter : option SubscribeFilter) : option node :=
  finish (scan_with subscribe_filter season episode
            (match_dir subscribe_filter season episode) files no_cands).

End EpisodeMatcher.

(* ------------------------------------------------------------------ *)
(** ** [p115client.py]: risk-control detection and the retry wrapper *)

(** A response dict: its ["state"] (truthiness) and the [str] of the
    values of its other keys (a key absent or mapped to [None] is absent). *)
Record resp := mkresp {
  state : bool;
  fields : list (string * string)
}.

Definition get_field (r : resp) (k : string) : option string :=
  match find (fun kv => String.eqb (fst kv) k) (fields r) with
  | Some (_, v) => Some v
  | None => None
  end.

(** An exception: [type(e).__name__] and [str(e)]. *)
Record exc := mkexc { exc_type : string; exc_msg : string }.

(** What one call [fn( *args, **kwargs)] does: return or raise. *)
Inductive outcome : Type :=
  | Ok (r : resp)
  | Raise (e : exc).

(** [_stringify_exc] *)
Definition stringify_exc (e : exc) : string := exc_type e ++ ": " ++ exc_msg e.

Definition risk_keywords : list string :=
  [ "risk"; "风控"; "频繁"; "太快"; "too fast"; "limit"; "rate"; "throttle";
    "验证码"; "verify"; "validation"; "安全校验"; "请稍后"; "稍后再试"; "系统繁忙";
    "429"; "403"; "forbidden"; "denied" ].

(** [_is_risk_control_text] *)
Definition is_risk_control_text (s : string) : bool :=
  if String.eqb s "" then false
  else let s' := lower s in existsb (fun k => contains k s') risk_keywords.

Fixpoint join (sep : string) (parts : list string) : string :=
  match parts with
  | [] => ""
  | [p] => p
  | p :: ps => p ++ sep ++ join sep ps
  end.

(** [_is_risk_control_error] on a dict response. *)
Definition is_risk_control_resp (r : resp) : bool :=
  let parts := flat_map (fun k => match get_field r k with Some v => [v] | None => [] end)
                 ["error"; "msg"; "message"; "errno"; "errcode"; "code"] in
  is_risk_control_text (join " | " parts).

(** [_is_risk_control_error] on an exception. *)
Definition is_risk_control_exc (e : exc) : bool :=
  is_risk_control_text (stringify_exc e).

(* ------------------------------------------------------------------ *)
(** ** [p115client.py]: [OrderedDict] and the request counter *)

(** An [OrderedDict] as the list of its entries, oldest first; its keys
    are distinct. *)
Section OrderedDict.

Variable V : Type.

(** [d.get(k)] *)
Fixpoint od_get (k : string) (d : list (string * V)) : option V :=
  match d with
  | [] => None
  | (k', v) :: r => if String.eqb k' k then Some v else od_get k r
  end.

(** [d.pop(k, None)] *)
Definition od_pop (k : string) (d : list (string * V)) : list (string * V) :=
  filter (fun e => negb (String.eqb (fst e) k)) d.

(** [d[k] = v]: a key already present keeps its position. *)
Fixpoint od_assign (k : string) (v : V) (d : list (string * V)) : list (string * V) :=
  match d with
  | [] => [(k, v)]
  | (k', v') :: r => if String.eqb k' k then (k, v) :: r else (k', v') :: od_assign k v r
  end.

(** [d.move_to_end(k)], used by the source on present keys only. *)
Definition od_move_to_end (k : string) (d : list (string * V)) : list (string * V) :=
  match od_get k d with
  | Some v => (od_pop k d ++ [(k, v)])%list
  | None => d
  end.

End OrderedDict.

Arguments od_get {V} k d.
Arguments od_pop {V} k d.
Arguments od_assign {V} k v d.
Arguments od_move_to_end {V} k d.

(** [self._req_count] (a [defaultdict(int)]) and [self._req_total], shared
    by all the requests of one [P115ClientManager]. *)
Record req_stats := mkreq_stats { req_count : list (string * nat); req_total : nat }.

(** [__init__]: [self._req_count = defaultdict(int)], [self._req_total = 0]. *)
Definition new_req_stats : req_stats := mkreq_stats [] 0.

Definition log_req_every : nat := 5.

(** [self._log_req_every > 0 and (self._req_total % self._log_req_every == 0)] *)
Definition req_logs (total : nat) : bool :=
  (0 <? log_req_every) && (total mod log_req_every =? 0).

(** [_inc_req(api_name)]: the new counters, or [None] when it never
    returns.  It calls [log_request_stats] while it holds
    [self._req_count_lock], a non-reentrant [threading.Lock], and
    [get_request_stats] then waits for that same lock: the thread blocks
    forever and the lock stays held, so every later request of the
    manager blocks as well. *)
Definition inc_req (api_name : string) (st : req_stats) : option req_stats :=
  let c := match od_get api_name (req_count st) with Some n => n | None => 0 end in
  let total := S (req_total st) in
  if req_logs total then None
  else Some (mkreq_stats (od_assign api_name (S c) (req_count st)) total).

(** [get_request_stats()] while the lock is free:
    [d = dict(self._req_count); d["total"] = self._req_total] *)
Definition get_request_stats (st : req_stats) : list (string * nat) :=
  od_assign "total" (req_total st) (req_count st).

(** The requests [apis] counted one after the other by [_inc_req];
    [None] when one of them blocks. *)
Fixpoint run_reqs (apis : list string) (st : req_stats) : option req_stats :=
  match apis with
  | [] => Some st
  | a :: rest =>
      match inc_req a st with
      | Some st' => run_reqs rest st'
      | None => None
      end
  end.

Section Call.

Variable api_name : string.
(** [fn] as the remote behaves on its [i]-th call. *)
Variable attempt : nat -> outcome.
(** [random.uniform(0.0, 0.65)] drawn after the [i]-th failure. *)
Variable jitter : nat -> Q.
(** [f"{resp}"] *)
Variable repr_resp : resp -> string.
Variable base_delay : Q.
Variable must_check_state : bool.

(** The [try] body of iteration [i]: the call, and the [RuntimeError]
    raised on a risk-control response when [must_check_state]. *)
Definition try_once (i : nat) : outcome :=
  match attempt i with
  | Ok r =>
      if must_check_state && negb (state r) && is_risk_control_resp r
      then Raise (mkexc "RuntimeError" (api_name ++ " risk-control resp: " ++ repr_resp r))
      else Ok r
  | Raise e => Raise e
  end.





End Call.




(* ------------------------------------------------------------------ *)
(** ** The per-run transfer counter of a sync run

    [P115StrgmSub._do_sync] processes the movie subscriptions, then the TV
    subscriptions, threading [transferred_count] (the loop bodies are the
    ones of [SyncHandler.process_movie_subscribe] and
    [SyncHandler.process_tv_subscribe]).  The collaborators (history,
    media recognition, search, share checks, matching, the 115 transfers)
    are the section variables. *)

Definition subscription := nat.   (* subscribe.id *)
Definition share_url := string.

Section Run.

Variable max_transfer_per_sync : nat.

(** Movie subscriptions: [movie_skipped s] is one of the early
    [continue]s before the resource loop (excluded, already in history,
    not recognised, no search result); [movie_results s] the resources;
    [movie_attempt s u] is [None] when the body for resource [u] reaches a
    [continue] before [transfer_file], and [Some success] with the result
    of [transfer_file] otherwise. *)
Variable movie_skipped : subscription -> bool.
Variable movie_results : subscription -> list share_url.
Variable movie_attempt : subscription -> share_url -> option bool.

(** [for resource in p115_results: if movie_transferred: break ...] *)
Fixpoint movie_resource_loop (s : subscription) (rs : list share_url)
    (movie_transferred : bool) (transferred_count : nat) : nat :=
  match rs with
  | [] => transferred_count
  | u :: rest =>
      if movie_transferred then transferred_count
      else
        match movie_attempt s u with
        | None => movie_resource_loop s rest false transferred_count
        | Some true => movie_resource_loop s rest true (S transferred_count)
        | Some false => movie_resource_loop s rest false transferred_count
        end
  end.

Definition process_movie_subscribe (s : subscription) (transferred_count : nat) : nat :=
  if movie_skipped s then transferred_count
  else movie_resource_loop s (movie_results s) false transferred_count.

(** TV subscriptions: [tv_skipped s] is one of the early exits before the
    resource loop, [tv_results s] the resources, [tv_missing s] the
    missing episodes; [tv_matched s u missing] the [matched_items] of
    resource [u] as [(episode, file_id)] pairs ([[]] for every
    [continue] before the quota check); [transfer_files_batch u ids] the
    [success_ids] of the batch transfer. *)
Variable tv_skipped : subscription -> bool.
Variable tv_results : subscription -> list share_url.
Variable tv_missing : subscription -> list nat.
Variable tv_matched : subscription -> share_url -> list nat -> list (nat * string).
Variable transfer_files_batch : share_url -> list string -> list string.

Definition mem_str (x : string) (l : list string) : bool := existsb (String.eqb x) l.

Fixpoint tv_resource_loop (s : subscription) (rs : list share_url)
    (missing_episodes : list nat) (transferred_count : nat) : nat :=
  match rs with
  | [] => transferred_count
  | u :: rest =>
      if max_transfer_per_sync <=? transferred_count then transferred_count
      else
        match tv_matched s u missing_episodes with
        | [] => tv_resource_loop s rest missing_episodes transferred_count
        | matched_items =>
            let remaining_quota := max_transfer_per_sync - transferred_count in
            let items := if remaining_quota <? length matched_items
                         then firstn remaining_quota matched_items else matched_items in
            let success_ids := transfer_files_batch u (map snd items) in
            let succeeded := filter (fun it => mem_str (snd it) success_ids) items in
            let count' := transferred_count + length succeeded in
            let missing' := filter (fun ep => negb (existsb (fun it => fst it =? ep) succeeded))
                              missing_episodes in
            if is_empty missing' then count'
            else tv_resource_loop s rest missing' count'
        end
  end.

Definition process_tv_subscribe (s : subscription) (transferred_count : nat) : nat :=
  if tv_skipped s then transferred_count
  else tv_resource_loop s (tv_results s) (tv_missing s) transferred_count.

(** The value of [transferred_count] at the end of [_do_sync]. *)
Definition do_sync_count (movie_subscribes tv_subscribes : list subscription) : nat :=
  let after_movies := fold_left (fun c s => process_movie_subscribe s c) movie_subscribes 0 in
  fold_left (fun c s => process_tv_subscribe s c) tv_subscribes after_movies.

End Run.

(* ------------------------------------------------------------------ *)
(** ** The persisted transfer history *)

Record history_item := mkhistory_item {
  h_title : string;
  h_season : option nat;
  h_episode : option nat;
  h_status : string;         (* "成功" / "失败" *)
  h_share_url : string;
  h_file_name : string;
  h_filter_score : nat;
  h_perfect_match : bool;
  h_time : string
}.

(** [history[-500:]] *)
Definition last_500 {A} (history : list A) : list A :=
  skipn (length history - 500) history.

(** The ledger saved by [_do_sync]: the loaded [history] with the run's
    entries appended, then [self.save_data('history', history[-500:])]. *)
Definition save_history (loaded appended : list history_item) : list history_item :=
  last_500 (loaded ++ appended).

(* ------------------------------------------------------------------ *)
(** ** Vocabulary of the statements *)

(** The candidates of one tier among the non-directory files of one
    level, in list order, with their filter scores. *)
Definition strict_of (t : tier) : option nat := match t with Strict sc => Some sc | _ => None end.
Definition loose_of (t : tier) : option nat := match t with Loose sc => Some sc | _ => None end.
Definition loosest_of (t : tier) : option nat := match t with Loosest sc => Some sc | _ => None end.

Definition tier_cands (re_search : string -> string -> bool) (flt : option SubscribeFilter)
    (season episode : nat) (pick : tier -> option nat) (files : list node) : list (node * nat) :=
  flat_map (fun f => if node_is_dir f then []
                     else match pick (classify re_search flt season episode (node_name f)) with
                          | Some sc => [(f, sc)]
                          | None => []
                          end) files.

(** The highest tier that has a candidate. *)
Definition top_tier (c : cands) : list (node * nat) :=
  match strict_matches c with
  | _ :: _ => strict_matches c
  | [] => match loose_matches c with
          | _ :: _ => loose_matches c
          | [] => loosest_matches c
          end
  end.

(** The number of configured rules (truthy patterns) that [re.search] finds
    in [file_name]. *)
Definition satisfied_rules (re_search : string -> string -> bool) (f : SubscribeFilter)
    (file_name : string) : nat :=
  length (filter (fun rule => match rule with
                              | Some pat => truthy rule && re_search pat file_name
                              | None => false
                              end) [quality f; resolution f; effect f]).

(** The file name carries, at some position, an [S<n>E], [第 n 季] or
    [Season n] tag naming season [n]. *)
Definition names_season (file_name : string) (n : nat) : Prop :=
  exists pre rest r', file_name = pre ++ rest /\
    (In (n, r') (re_season_e rest) \/ In (n, r') (re_cn_season rest)
     \/ In (n, r') (re_en_season rest)).

(** Literal search: [re.search(pat, s, re.IGNORECASE)] for a pattern
    without metacharacters, such as ["2160p"]. *)
Definition literal_search (pat s : string) : bool := contains (lower pat) (lower s).

(* ------------------------------------------------------------------ *)
(** ** [p115client.py]: [_LRUTTLCache] and [_RateLimiter] *)

(** [not (a <= b)], that is [b < a], on [Q]. *)
Definition Qltb (a b : Q) : bool := negb (Qle_bool b a).

Section Cache.

Variable V : Type.

Record cache_item := mkcache_item { value : V; expire_at : Q }.

Record lru_ttl_cache := mklru_ttl_cache {
  maxsize : nat;
  ttl_sec : Q;
  cache_data : list (string * cache_item)   (* [self._data] *)
}.

Definition with_data (c : lru_ttl_cache) (d : list (string * cache_item)) : lru_ttl_cache :=
  mklru_ttl_cache (maxsize c) (ttl_sec c) d.

(** [_LRUTTLCache.get(key)] at time [now]: the result and the new cache. *)
Definition cache_get (now : Q) (key : string) (c : lru_ttl_cache)
    : (bool * option V) * lru_ttl_cache :=
  match od_get key (cache_data c) with
  | None => ((false, None), c)
  | Some item =>
      if Qltb (expire_at item) now
      then ((false, None), with_data c (od_pop key (cache_data c)))
      else ((true, Some (value item)), with_data c (od_move_to_end key (cache_data c)))
  end.

(** [while len(self._data) > self.maxsize: self._data.popitem(last=False)];
    [fuel] bounds the number of iterations. *)
Fixpoint evict (fuel : nat) (max : nat) (d : list (string * cache_item))
    : list (string * cache_item) :=
  match fuel with
  | O => d
  | S f => if max <? length d then evict f max (tl d) else d
  end.

(** [_LRUTTLCache.set(key, value, ttl_sec)] at time [now]. *)
Definition cache_set (now : Q) (key : string) (v : V) (ttl : option Q)
    (c : lru_ttl_cache) : lru_ttl_cache :=
  let exp := (now + match ttl with None => ttl_sec c | Some t => t end)%Q in
  let d := od_move_to_end key (od_assign key (mkcache_item v exp) (cache_data c)) in
  with_data c (evict (length d) (maxsize c) d).

(** [_LRUTTLCache.delete(key)] *)
Definition cache_delete (key : string) (c : lru_ttl_cache) : lru_ttl_cache :=
  with_data c (od_pop key (cache_data c)).

End Cache.

Arguments mkcache_item {V} value expire_at.
Arguments value {V} c.
Arguments expire_at {V} c.
Arguments mklru_ttl_cache {V} maxsize ttl_sec cache_data.
Arguments maxsize {V} l.
Arguments ttl_sec {V} l.
Arguments cache_data {V} l.
Arguments with_data {V} c d.
Arguments cache_get {V} now key c.
Arguments evict {V} fuel max d.
Arguments cache_set {V} now key v ttl c.
Arguments cache_delete {V} key c.

(** Python's [max(a, b)] on floats. *)
Definition pymax (a b : Q) : Q := if Qle_bool b a then a else b.

Record rate_limiter := mkrate_limiter {
  rps : Q;
  min_interval : Q;
  jitter_sec : Q;
  next_ts : Q       (* [self._next_ts] *)
}.

(** [_RateLimiter(rps, jitter_sec)] *)
Definition new_rate_limiter (rps jitter : Q) : rate_limiter :=
  let r := pymax (1 # 10000) rps in
  mkrate_limiter r (1 / r) (pymax 0 jitter) 0.

(** The [time.sleep] duration of [_RateLimiter.wait] entered at [now]. *)
Definition wait_sleep (l : rate_limiter) (now : Q) : Q :=
  if Qltb now (next_ts l) then (next_ts l - now)%Q else 0%Q.

(** The state after [_RateLimiter.wait]: [after] is [time.time()] read
    after the sleep, [u] the [random.uniform(0.0, self.jitter_sec)] draw. *)
Definition wait (l : rate_limiter) (after u : Q) : rate_limiter :=
  mkrate_limiter (rps l) (min_interval l) (jitter_sec l) (after + min_interval l + u)%Q.


(* ------------------------------------------------------------------ *)
(** ** [p115client.py]: paths and directory entries *)

(** [s.replace("\\", "/")] *)
Fixpoint replace_backslash (s : string) : string :=
  match s with
  | EmptyString => EmptyString
  | String c r => String (if Ascii.eqb c "\"%char then "/"%char else c) (replace_backslash r)
  end.

(** [s.rstrip(ch)] for one character [ch]. *)
Fixpoint rstrip_char (ch : ascii) (s : string) : string :=
  match s with
  | EmptyString => EmptyString
  | String c r =>
      let r' := rstrip_char ch r in
      if String.eqb r' "" && Ascii.eqb c ch then EmptyString else String c r'
  end.

(** The first lines of [get_pid_by_path]: [path = (path or "")...]. *)
Definition normalize_path (path : option string) : string :=
  let p := replace_backslash (match path with Some s => s | None => "" end) in
  let p := if prefix "/" p then p else "/" ++ p in
  rstrip_char "/" p.

(** [get_pid_by_path(path, mkdir)]: [has_client] is [self.client], and
    [resolve] the rest of the body (the two caches, [fs_dir_getid] and the
    directory creation), run on the normalized path. *)
Definition get_pid_by_path (has_client : bool) (resolve : string -> bool -> Z)
    (path : option string) (mkdir : bool) : Z :=
  if negb has_client then (-1)%Z
  else
    let p := normalize_path path in
    if String.eqb p "" || String.eqb p "/" then 0%Z
    else resolve p mkdir.

(** A JSON scalar as the 115 API returns it: absent or [null], an
    integer or a string. *)
Inductive pyval : Type :=
  | PyNone
  | PyInt (z : Z)
  | PyStr (s : string).

(** [==] between such values ([0 == "0"] is [False] in Python). *)
Definition pyval_eqb (a b : pyval) : bool :=
  match a, b with
  | PyNone, PyNone => true
  | PyInt x, PyInt y => Z.eqb x y
  | PyStr x, PyStr y => String.eqb x y
  | _, _ => false
  end.

(** An entry of the [fs_files] listing: its ["n"], ["name"], ["fid"] and
    ["cid"] keys ([None] for a missing key). *)
Record fs_item := mkfs_item {
  fi_n : option string;
  fi_name : option string;
  fi_fid : pyval;
  fi_cid : option Z
}.

(* ------------------------------------------------------------------ *)
(** ** [FileMatcher.check_existing_episodes] *)

(** The fields of [MetaInfo(file_name)] the function reads. *)
Record meta_info := mkmeta_info {
  begin_season : option nat;
  begin_episode : option nat;
  end_episode : option nat
}.

(** Truthiness of an optional int. *)
Definition truthy_nat (o : option nat) : bool :=
  match o with Some n => negb (n =? 0) | None => false end.

(** [file_info.get("n") or file_info.get("name", "")] *)
Definition fs_file_name (f : fs_item) : string :=
  match fi_n f with
  | Some n => if String.eqb n "" then match fi_name f with Some s => s | None => "" end else n
  | None => match fi_name f with Some s => s | None => "" end
  end.

(** [is_dir = (fid == 0 or fid == "0")] *)
Definition fs_is_dir (f : fs_item) : bool :=
  pyval_eqb (fi_fid f) (PyInt 0) || pyval_eqb (fi_fid f) (PyStr "0").

(** The episodes the loop body adds for one listed file, in order. *)
Definition existing_of_file (meta_of : string -> meta_info) (season : nat) (f : fs_item) : list nat :=
  let file_name := fs_file_name f in
  if fs_is_dir f then []
  else if negb (is_video file_name) then []
  else if contains_other_season file_name season then []
  else
    let meta := meta_of file_name in
    let season_matches :=
      match begin_season meta with
      | Some s => s =? season
      | None => negb (contains_other_season file_name season)
      end in
    match begin_episode meta with
    | Some b =>
        if season_matches && negb (b =? 0) then
          b :: (match end_episode meta with
                | Some e => if negb (e =? 0) && negb (e =? b) then seq b (S e - b) else []
                | None => []
                end)
        else []
    | None => []
    end.

(** [check_existing_episodes(p115_manager, mediainfo, season, save_dir)]:
    [dir_id] is [get_pid_by_path(save_dir, mkdir=False)] and [files]
    [list_files(save_dir)]; [meta_of] is [MetaInfo].  The set is the list
    of the episodes added to it. *)
Definition check_existing_episodes (has_manager : bool) (meta_of : string -> meta_info)
    (season : nat) (dir_id : Z) (files : list fs_item) : list nat :=
  if negb has_manager then []
  else if Z.eqb dir_id (-1) then []
  else flat_map (existing_of_file meta_of season) files.

(* ------------------------------------------------------------------ *)
(** ** Share listings and [FileMatcher.match_movie_file] *)

(** A file dict of [_list_share_files_recursive]: ["id"], ["name"],
    ["size"], ["is_dir"] and the ["children"] key, present only on the
    directories that were listed. *)
Inductive sfile : Type :=
  | mksfile (sf_id : string) (sf_name : string) (sf_size : nat) (sf_is_dir : bool)
            (sf_children : option (list sfile)).

Definition sf_name (f : sfile) : string := match f with mksfile _ n _ _ _ => n end.
Definition sf_size (f : sfile) : nat := match f with mksfile _ _ s _ _ => s end.
Definition sf_is_dir (f : sfile) : bool := match f with mksfile _ _ _ d _ => d end.

(** An item yielded by [share_iterdir]. *)
Record share_item := mkshare_item {
  si_id : nat;
  si_name : string;
  si_size : nat;
  si_is_dir : bool
}.

Section ShareListing.

(** [share_iterdir(..., cid=cid)]: the items it yields before it stops
    (normally or by raising; the items already appended are kept). *)
Variable share_iterdir : nat -> list share_item.

(** [_list_share_files_recursive(share_code, receive_code, cid, depth,
    max_depth)]; [fuel] is at least [max_depth - depth + 1]. *)
Fixpoint list_share_files_rec (fuel cid depth max_depth : nat) : list sfile :=
  if max_depth <? depth then []
  else
    match fuel with
    | O => []
    | S f =>
        map (fun it =>
               mksfile (str_of_nat (si_id it)) (si_name it) (si_size it) (si_is_dir it)
                 (if si_is_dir it && (depth <? max_depth)
                  then Some (list_share_files_rec f (si_id it) (S depth) max_depth)
                  else None))
            (share_iterdir cid)
    end.

(** [list_share_files(share_url, cid, max_depth)] once the share codes
    are known. *)
Definition list_share_files (has_client codes_ok : bool) (cid max_depth : nat) : list sfile :=
  if negb has_client then []
  else if negb codes_ok then []
  else list_share_files_rec (S max_depth) cid 1 max_depth.

End ShareListing.

(** The nesting depth of a file dict: 1 for a file or a directory
    without ["children"]. *)
Fixpoint sdepth (f : sfile) : nat :=
  match f with
  | mksfile _ _ _ _ None => 1
  | mksfile _ _ _ _ (Some l) =>
      S ((fix go (l : list sfile) : nat :=
            match l with [] => 0 | x :: r => Nat.max (sdepth x) (go r) end) l)
  end.

Section MovieMatcher.

Variable re_search : string -> string -> bool.

(** [collect_video_files] of [match_movie_file], on one file dict:
    the [(file, filter_score)] candidates it appends, in order. *)
Fixpoint collect_video_file (min_size_bytes : nat) (flt : option SubscribeFilter)
    (file : sfile) : list (sfile * nat) :=
  match file with
  | mksfile _ file_name file_size is_dir children =>
      if is_dir then
        match children with
        | Some sub_files =>
            (fix go (l : list sfile) : list (sfile * nat) :=
               match l with
               | [] => []
               | x :: r => (collect_video_file min_size_bytes flt x ++ go r)%list
               end) sub_files
        | None => []
        end
      else if negb (is_video file_name) then []
      else if file_size <? min_size_bytes then []
      else
        match flt with
        | Some f =>
            if has_filters f then
              let '(matched, filter_score) := filter_match re_search f file_name in
              if matched then [(file, filter_score)] else []
            else [(file, 0)]
        | None => [(file, 0)]
        end
  end.

Definition collect_video_files (min_size_bytes : nat) (flt : option SubscribeFilter)
    (files : list sfile) : list (sfile * nat) :=
  flat_map (collect_video_file min_size_bytes flt) files.

(** The sort key [(x[1], x[0].get("size", 0))], compared lexicographically. *)
Definition movie_key (x : sfile * nat) : nat * nat := (snd x, sf_size (fst x)).

Definition key_le (a b : nat * nat) : bool :=
  (fst a <? fst b) || ((fst a =? fst b) && (snd a <=? snd b)).

(** [candidates.sort(key=..., reverse=True)], stable. *)
Fixpoint insert_movie (x : sfile * nat) (l : list (sfile * nat)) : list (sfile * nat) :=
  match l with
  | [] => [x]
  | y :: r => if key_le (movie_key y) (movie_key x) then x :: y :: r else y :: insert_movie x r
  end.

Fixpoint sort_movies (l : list (sfile * nat)) : list (sfile * nat) :=
  match l with
  | [] => []
  | x :: r => insert_movie x (sort_movies r)
  end.

(** [FileMatcher.match_movie_file(files, title, min_size_mb,
    subscribe_filter)] *)
Definition match_movie_file (files : list sfile) (title : string) (min_size_mb : nat)
    (flt : option SubscribeFilter) : option sfile :=
  match sort_movies (collect_video_files (min_size_mb * 1024 * 1024) flt files) with
  | [] => None
  | (f, _) :: _ => Some f
  end.

End MovieMatcher.

(** A path made only of these characters normalizes to the root. *)
Definition is_slash_char (c : ascii) : bool := Ascii.eqb c "/" || Ascii.eqb c "\".

(* ------------------------------------------------------------------ *)
(** ** The episodes still to transfer ([process_tv_subscribe]) *)

(** The status string of a successful transfer. *)
Definition status_success : string := "成功".

Definition opt_nat_eqb (a b : option nat) : bool :=
  match a, b with
  | Some x, Some y => x =? y
  | None, None => true
  | _, _ => false
  end.


(** [episode_history_scores], a dict keyed by [h.get("episode")]. *)
Fixpoint score_lookup (k : option nat) (d : list (option nat * nat)) : option nat :=
  match d with
  | [] => None
  | (k', v) :: r => if opt_nat_eqb k' k then Some v else score_lookup k r
  end.

Fixpoint score_assign (k : option nat) (v : nat) (d : list (option nat * nat)) : list (option nat * nat) :=
  match d with
  | [] => [(k, v)]
  | (k', v') :: r => if opt_nat_eqb k' k then (k', v) :: r else (k', v') :: score_assign k v r
  end.

(** The condition of the [for h in history] loop. *)
Definition hist_ok (title : string) (season : nat) (h : history_item) : bool :=
  String.eqb (h_title h) title && opt_nat_eqb (h_season h) (Some season)
  && String.eqb (h_status h) status_success.

(** One iteration of the loop on [(transferred_episodes, episode_history_scores)]. *)
Definition scan_step (best : bool) (title : string) (season : nat)
    (acc : list (option nat) * list (option nat * nat)) (h : history_item)
    : list (option nat) * list (option nat * nat) :=
  let '(transferred, scores) := acc in
  if hist_ok title season h then
    let ep := h_episode h in
    let score := h_filter_score h in
    if negb best then ((transferred ++ [ep])%list, scores)
    else if h_perfect_match h then ((transferred ++ [ep])%list, scores)
    else match score_lookup ep scores with
         | None => (transferred, score_assign ep score scores)
         | Some old => if old <? score then (transferred, score_assign ep score scores)
                       else (transferred, scores)
         end
  else (transferred, scores).

Definition scan_history (best : bool) (title : string) (season : nat) (history : list history_item)
    : list (option nat) * list (option nat * nat) :=
  fold_left (scan_step best title season) history ([], []).


(** Two successful records of episodes 2 (not a perfect match, score
    100) and 3 (a perfect match). *)
Definition sample_history : list history_item :=
  [mkhistory_item "Show" (Some 1) (Some 2) status_success "u" "Show.S01E02.mkv" 100 false "t";
   mkhistory_item "Show" (Some 1) (Some 3) status_success "u" "Show.S01E03.mkv" 300 true "t"].

(* ================================================================== *)
(** * Proofs *)

(** ** General lemmas *)

Lemma search_sound : forall {A} (p : P A) s a,
  search p s = Some a -> exists pre rest r', s = pre ++ rest /\ In (a, r') (p rest).
Proof.
  intros A p s; induction s as [|c s IH]; intros a H; simpl in H.
  - destruct (p "") as [|[a' r'] l] eqn:E; [discriminate|].
    injection H as <-. exists "", "", r'. rewrite E. simpl. auto.
  - destruct (p (String c s)) as [|[a' r'] l] eqn:E.
    + destruct (IH a H) as (pre & rest & r'' & -> & Hin).
      exists (String c pre), rest, r''. auto.
    + injection H as <-. exists "", (String c s), r'. rewrite E. simpl. auto.
Qed.

Lemma classify_not_skip_video : forall re flt season episode file_name,
  classify re flt season episode file_name <> Skip -> is_video file_name = true.
Proof.
  intros re flt season episode file_name H.
  unfold classify in H. destruct (is_video file_name); [reflexivity|].
  simpl in H. congruence.
Qed.

(** Induction over share-file trees, through the children lists. *)
Fixpoint node_tree_ind (Q : node -> Prop)
    (H : forall nm d ch, Forall Q ch -> Q (mknode nm d ch)) (n : node) : Q n :=
  match n with
  | mknode nm d ch =>
      H nm d ch
        ((fix go (l : list node) : Forall Q l :=
            match l with
            | [] => Forall_nil Q
            | x :: r => Forall_cons x (node_tree_ind Q H x) (go r)
            end) ch)
  end.

(** The element [sort_desc] puts first: the first one of greatest score. *)
Lemma sort_desc_head : forall l, l <> [] ->
  exists pre x post tl, l = (pre ++ x :: post)%list /\ sort_desc l = x :: tl /\
    Forall (fun y => snd y < snd x) pre /\ Forall (fun y => snd y <= snd x) post.
Proof.
  induction l as [|a r IH]; intros Hne; [congruence|].
  destruct r as [|b r'].
  - exists [], a, [], []. simpl. auto.
  - destruct (IH ltac:(discriminate)) as (pre & x & post & tl & Hl & Hs & Hpre & Hpost).
    cbn [sort_desc]. cbn [sort_desc] in Hs. rewrite Hs. simpl.
    destruct (snd x <=? snd a) eqn:Hle.
    + apply Nat.leb_le in Hle.
      exists [], a, (b :: r'), (x :: tl). simpl. repeat split; auto.
      rewrite Hl. apply Forall_app. split.
      * eapply Forall_impl; [|exact Hpre]. simpl. intros y Hy. lia.
      * constructor; [lia|]. eapply Forall_impl; [|exact Hpost]. simpl. intros y Hy. lia.
    + apply Nat.leb_gt in Hle.
      exists (a :: pre), x, post, (insert_desc a tl). rewrite Hl. simpl.
      repeat split; auto.
Qed.

Lemma first_of_spec : forall l f, first_of l = Some f ->
  exists pre sc post, l = (pre ++ (f, sc) :: post)%list /\
    Forall (fun y => snd y < sc) pre /\ Forall (fun y => snd y <= sc) post.
Proof.
  intros l f H. destruct l as [|a r]; [discriminate|].
  destruct (sort_desc_head (a :: r) ltac:(discriminate))
    as (pre & [g sc] & post & tl & Hl & Hs & Hpre & Hpost).
  unfold first_of in H. rewrite Hs in H. injection H as ->.
  exists pre, sc, post. auto.
Qed.

(** ** What the episode matcher can return *)

Definition video_file (n : node) : Prop :=
  node_is_dir n = false /\ is_video (node_name n) = true.

Definition cands_ok (c : cands) : Prop :=
  Forall (fun x => video_file (fst x)) (strict_matches c) /\
  Forall (fun x => video_file (fst x)) (loose_matches c) /\
  Forall (fun x => video_file (fst x)) (loosest_matches c).

Lemma add_cand_ok : forall re flt season episode f c,
  node_is_dir f = false -> cands_ok c ->
  cands_ok (add_cand f (classify re flt season episode (node_name f)) c).
Proof.
  intros re flt season episode f c Hd (H1 & H2 & H3).
  destruct (classify re flt season episode (node_name f)) eqn:Ht;
    [unfold cands_ok; auto|..];
    assert (Hv : video_file f)
      by (split; [exact Hd | apply (classify_not_skip_video re flt season episode); congruence]);
    unfold cands_ok; simpl; repeat split; auto;
    apply Forall_app; split; auto.
Qed.

Lemma first_of_in : forall l f, first_of l = Some f -> exists sc, In (f, sc) l.
Proof.
  intros l f H. destruct (first_of_spec l f H) as (pre & sc & post & -> & _ & _).
  exists sc. apply in_or_app. right. left. reflexivity.
Qed.

Lemma select_ok : forall c m, cands_ok c -> select c = Some m -> video_file m.
Proof.
  intros c m (H1 & H2 & H3) Hs. unfold select in Hs.
  destruct (strict_matches c) as [|x l] eqn:E1.
  - destruct (loose_matches c) as [|y l'] eqn:E2.
    + destruct (first_of_in _ _ Hs) as [sc Hin].
      exact (proj1 (Forall_forall _ _) H3 _ Hin).
    + destruct (first_of_in _ _ Hs) as [sc Hin].
      exact (proj1 (Forall_forall _ _) H2 _ Hin).
  - destruct (first_of_in _ _ Hs) as [sc Hin].
    exact (proj1 (Forall_forall _ _) H1 _ Hin).
Qed.

Lemma scan_with_ok : forall re flt season episode sub files c,
  Forall (fun d => forall m, sub d = Some m -> video_file m) files ->
  cands_ok c ->
  match scan_with re flt season episode sub files c with
  | inl m => video_file m
  | inr c' => cands_ok c'
  end.
Proof.
  intros re flt season episode sub files.
  induction files as [|f rest IH]; intros c Hsub Hc; simpl; [exact Hc|].
  inversion Hsub as [|? ? Hf Hrest]; subst.
  destruct (node_is_dir f) eqn:Hd.
  - destruct (is_empty (node_children f)); [apply IH; auto|].
    destruct (sub f) as [m|] eqn:Hs; [apply Hf; reflexivity|apply IH; auto].
  - apply IH; auto. apply add_cand_ok; auto.
Qed.

Lemma no_cands_ok : cands_ok no_cands.
Proof. repeat split; constructor. Qed.

Lemma match_dir_ok : forall re flt season episode d m,
  match_dir re flt season episode d = Some m -> video_file m.
Proof.
  intros re flt season episode d.
  induction d as [nm dd ch Hch] using node_tree_ind. intros m H.
  simpl in H. unfold finish in H.
  pose proof (scan_with_ok re flt season episode (match_dir re flt season episode) ch no_cands
                Hch no_cands_ok) as Hs.
  destruct (scan_with re flt season episode (match_dir re flt season episode) ch no_cands).
  - injection H as <-. exact Hs.
  - exact (select_ok _ _ Hs H).
Qed.

(** ** C10 *)

(** C10: for every share-file forest, title, season, episode and filter,
    [match_episode_file] returns nothing or a node that is not a
    directory and whose name has a video extension ([.mkv], [.mp4],
    [.avi], [.rmvb], [.wmv], [.flv], [.ts], [.m2ts], any case). *)
Theorem match_episode_file_returns_video :
  forall re_search files title season episode flt n,
    match_episode_file re_search files title season episode flt = Some n ->
    node_is_dir n = false /\
    In (lower (suffix (node_name n))) VIDEO_EXTENSIONS.
Proof.
  intros re files title season episode flt n H.
  unfold match_episode_file, finish in H.
  assert (Hsub : Forall (fun d => forall m, match_dir re flt season episode d = Some m ->
                                            video_file m) files).
  { apply Forall_forall. intros d _ m Hm. exact (match_dir_ok _ _ _ _ _ _ Hm). }
  pose proof (scan_with_ok re flt season episode (match_dir re flt season episode) files
                no_cands Hsub no_cands_ok) as Hs.
  assert (Hv : video_file n).
  { destruct (scan_with re flt season episode (match_dir re flt season episode) files no_cands).
    - injection H as <-. exact Hs.
    - exact (select_ok _ _ Hs H). }
  destruct Hv as [Hd Hv]. split; [exact Hd|].
  unfold is_video in Hv. apply existsb_exists in Hv. destruct Hv as [x [Hin Heq]].
  apply String.eqb_eq in Heq. rewrite Heq. exact Hin.
Qed.

(** ** C3 *)

(** C3: in episode matching, an [SxxEyy] token in a file name is
    authoritative.  For a file whose name has one (the first match of
    [[Ss](\d{1,2})[Ee](\d{1,2})]), the loop body never puts it in the
    loose or loosest tier, and puts it in the strict tier exactly when the
    token's season and episode are the target ones (for a file that
    reaches the token check: a video file, not marked with another
    season, accepted by the filter).  In particular [Show.S02E05.mkv] is
    matched for season 2 episode 5 and not for season 2 episode 6. *)
Theorem sxex_token_is_authoritative :
  (forall re_search flt season episode file_name found_season found_episode,
     extract_episode_from_sxex file_name = Some (found_season, found_episode) ->
     (forall sc, classify re_search flt season episode file_name <> Loose sc /\
                 classify re_search flt season episode file_name <> Loosest sc) /\
     ((exists sc, classify re_search flt season episode file_name = Strict sc) <->
      (is_video file_name = true /\ contains_other_season file_name season = false /\
       fst (apply_filter re_search flt file_name) = true /\
       found_season = season /\ found_episode = episode))) /\
  (forall re_search,
     match_episode_file re_search [mknode "Show.S02E05.mkv" false []] "Show" 2 5 None
       = Some (mknode "Show.S02E05.mkv" false []) /\
     match_episode_file re_search [mknode "Show.S02E05.mkv" false []] "Show" 2 6 None = None).
Proof.
  split.
  - intros re flt season episode file_name fs fe Hx.
    unfold classify. rewrite Hx.
    destruct (is_video file_name) eqn:Hv; simpl;
      [| split; [intros; split; discriminate | split; [intros [sc Hc]; discriminate | intuition discriminate]]].
    destruct (contains_other_season file_name season) eqn:Ho; simpl;
      [split; [intros; split; discriminate | split; [intros [sc Hc]; discriminate | intuition discriminate]]|].
    destruct (apply_filter re flt file_name) as [matched sc0] eqn:Hf. simpl.
    destruct matched; simpl;
      [| split; [intros; split; discriminate | split; [intros [sc Hc]; discriminate | intuition discriminate]]].
    destruct (Nat.eqb_spec fs season) as [Hs|Hs]; destruct (Nat.eqb_spec fe episode) as [He|He];
      simpl.
    + split; [intros; split; discriminate|]. split; [intros _; repeat split; auto | intros _; exists sc0; reflexivity].
    + split; [intros; split; discriminate|]. split; [intros [sc Hc]; discriminate | intuition].
    + split; [intros; split; discriminate|]. split; [intros [sc Hc]; discriminate | intuition].
    + split; [intros; split; discriminate|]. split; [intros [sc Hc]; discriminate | intuition].
  - intros re. split; vm_compute; reflexivity.
Qed.

Lemma sxex_token_is_authoritative_witness :
  extract_episode_from_sxex "Show.S02E05.mkv" = Some (2, 5) /\
  (exists sc, classify literal_search None 2 5 "Show.S02E05.mkv" = Strict sc).
Proof.
  split; [vm_compute; reflexivity|].
  apply (proj2 (proj2 (proj1 sxex_token_is_authoritative literal_search None 2 5
                         "Show.S02E05.mkv" 2 5 ltac:(vm_compute; reflexivity)))).
  repeat split; vm_compute; reflexivity.
Defined.

(** ** The filter: C4, C9 *)

Lemma check_rule_stops : forall re rule strict_mode file_name,
  check_rule re rule strict_mode file_name None = None.
Proof. reflexivity. Qed.

Lemma check_rule_fails : forall re rule file_name st,
  rule_fails re rule file_name = true -> check_rule re rule true file_name st = None.
Proof.
  intros re [pat|] file_name [[[score mc] total]|] H; simpl in *; try discriminate; auto.
  destruct (String.eqb pat "") eqn:E; simpl in H; [discriminate|].
  destruct (re pat file_name); simpl in H; [discriminate|reflexivity].
Qed.

Lemma rule_fails_truthy : forall re rule file_name,
  rule_fails re rule file_name = true -> truthy rule = true.
Proof.
  intros re [pat|] file_name H; simpl in *; [|discriminate].
  destruct (negb (String.eqb pat "")); [reflexivity|discriminate].
Qed.

(** C4: in strict mode, a configured rule (quality, resolution or
    effect: a non-empty pattern) that [re.search] does not find in the
    file name makes [SubscribeFilter.match] return [(False, 0)]. *)
Theorem strict_filter_rejects_unmatched : forall re_search f file_name,
  strict f = true ->
  rule_fails re_search (quality f) file_name = true \/
  rule_fails re_search (resolution f) file_name = true \/
  rule_fails re_search (effect f) file_name = true ->
  filter_match re_search f file_name = (false, 0).
Proof.
  intros re f file_name Hs Hfail. unfold filter_match.
  assert (Hh : has_filters f = true).
  { unfold has_filters.
    destruct Hfail as [H|[H|H]]; apply rule_fails_truthy in H; rewrite H;
      repeat rewrite orb_true_r; reflexivity. }
  rewrite Hh. cbn [negb]. rewrite Hs.
  destruct Hfail as [H|[H|H]].
  - rewrite (check_rule_fails re (quality f) file_name _ H). reflexivity.
  - rewrite (check_rule_fails re (resolution f) file_name _ H). reflexivity.
  - rewrite (check_rule_fails re (effect f) file_name _ H). reflexivity.
Qed.

Lemma strict_filter_rejects_unmatched_witness :
  filter_match literal_search (mkSubscribeFilter None (Some "2160p") None true)
    "Show.S01E01.1080p.mkv" = (false, 0).
Proof.
  apply strict_filter_rejects_unmatched; [reflexivity|].
  right; left. vm_compute. reflexivity.
Defined.

(** C9: with no rule configured (quality, resolution and effect all
    [None] or empty), [SubscribeFilter.match] returns [(True, 0)] and
    [is_perfect_match] returns [True] for every file name, and the filter
    step of [match_episode_file] accepts every file with score 0. *)
Theorem unconfigured_filter_accepts_all : forall re_search f file_name,
  truthy (quality f) = false ->
  truthy (resolution f) = false ->
  truthy (effect f) = false ->
  filter_match re_search f file_name = (true, 0) /\
  is_perfect_match re_search f file_name = true /\
  apply_filter re_search (Some f) file_name = (true, 0).
Proof.
  intros re f file_name Hq Hr He.
  assert (Hh : has_filters f = false) by (unfold has_filters; rewrite Hq, Hr, He; reflexivity).
  unfold filter_match, is_perfect_match, apply_filter. rewrite Hh. auto.
Qed.

Lemma unconfigured_filter_accepts_all_witness :
  filter_match literal_search (mkSubscribeFilter None None (Some "") true) "Show.S01E01.mkv"
    = (true, 0) /\
  is_perfect_match literal_search (mkSubscribeFilter None None (Some "") true) "Show.S01E01.mkv"
    = true /\
  apply_filter literal_search (Some (mkSubscribeFilter None None (Some "") true)) "Show.S01E01.mkv"
    = (true, 0).
Proof.
  apply unconfigured_filter_accepts_all; reflexivity.
Defined.

(** ** C8 *)

Lemma matches_target_names_season : forall file_name season,
  matches_target_season file_name season = true -> names_season file_name season.
Proof.
  intros file_name season H. unfold matches_target_season in H.
  destruct (search re_season_e file_name) as [n|] eqn:E1.
  - apply Nat.eqb_eq in H. subst n.
    destruct (search_sound _ _ _ E1) as (pre & rest & r' & Hs & Hin).
    exists pre, rest, r'. auto.
  - destruct (search re_cn_season file_name) as [n|] eqn:E2.
    + apply Nat.eqb_eq in H. subst n.
      destruct (search_sound _ _ _ E2) as (pre & rest & r' & Hs & Hin).
      exists pre, rest, r'. auto.
    + destruct (search re_en_season file_name) as [n|] eqn:E3; [|discriminate].
      apply Nat.eqb_eq in H. subst n.
      destruct (search_sound _ _ _ E3) as (pre & rest & r' & Hs & Hin).
      exists pre, rest, r'. auto.
Qed.

Lemma loosest_matches_target : forall re flt season episode file_name sc,
  classify re flt season episode file_name = Loosest sc ->
  matches_target_season file_name season = true.
Proof.
  intros re flt season episode file_name sc H.
  destruct (matches_target_season file_name season) eqn:Hm; [reflexivity|exfalso].
  unfold classify in H. rewrite Hm in H.
  destruct (apply_filter re flt file_name) as [matched fs].
  repeat match type of H with
         | context [if ?b then _ else _] => destruct b
         | context [match ?m with _ => _ end] => destruct m as [[? ?]|]
         end; try discriminate.
Qed.

(** C8: a file accepted in the loosest (bare number) tier has a name that
    names the target season: [_matches_target_season] holds, and the
    name contains an [S<n>E], [第 n 季] or [Season n] tag with [n] the
    target season; a name with no such tag for any season is never
    accepted in that tier. *)
Theorem loosest_tier_requires_target_season :
  (forall re_search flt season episode file_name sc,
     classify re_search flt season episode file_name = Loosest sc ->
     matches_target_season file_name season = true /\ names_season file_name season) /\
  (forall re_search flt season episode file_name sc,
     (forall n, ~ names_season file_name n) ->
     classify re_search flt season episode file_name <> Loosest sc).
Proof.
  split.
  - intros re flt season episode file_name sc H.
    pose proof (loosest_matches_target _ _ _ _ _ _ H) as Hm.
    split; [exact Hm | exact (matches_target_names_season _ _ Hm)].
  - intros re flt season episode file_name sc Hno H.
    apply (Hno season).
    exact (matches_target_names_season _ _ (loosest_matches_target _ _ _ _ _ _ H)).
Qed.

Lemma loosest_tier_requires_target_season_witness :
  classify literal_search None 2 5 "Show Season 2 - 05 .mkv" = Loosest 0 /\
  matches_target_season "Show Season 2 - 05 .mkv" 2 = true /\
  names_season "Show Season 2 - 05 .mkv" 2.
Proof.
  assert (H : classify literal_search None 2 5 "Show Season 2 - 05 .mkv" = Loosest 0)
    by (vm_compute; reflexivity).
  split; [exact H|].
  exact (proj1 loosest_tier_requires_target_season _ _ _ _ _ _ H).
Defined.

(** ** C5 *)

(** C5 (counterexample): with the best-version filter [resolution =
    "2160p"] (non-strict), [Show.S02E05.2160p.mkv] (score 100) and
    [Show.S02E05.1080p.mkv] (score 0) are both strict-tier candidates for
    S02E05, yet when the second one sits in a subdirectory listed after the
    first, [match_episode_file] returns the lower-scored one: the subtree's
    hit is returned at once. *)
Lemma subdir_hit_preempts_higher_score :
  classify literal_search (Some (mkSubscribeFilter None (Some "2160p") None false)) 2 5
    "Show.S02E05.2160p.mkv" = Strict 100 /\
  classify literal_search (Some (mkSubscribeFilter None (Some "2160p") None false)) 2 5
    "Show.S02E05.1080p.mkv" = Strict 0 /\
  match_episode_file literal_search
    [mknode "Show.S02E05.2160p.mkv" false [];
     mknode "extras" true [mknode "Show.S02E05.1080p.mkv" false []]]
    "Show" 2 5 (Some (mkSubscribeFilter None (Some "2160p") None false))
  = Some (mknode "Show.S02E05.1080p.mkv" false []).
Proof. vm_compute. repeat split. Qed.

Lemma scan_with_no_subdir_hit : forall re flt season episode sub files c,
  Forall (fun d => node_is_dir d = true -> sub d = None) files ->
  scan_with re flt season episode sub files c =
  inr (mkcands (strict_matches c ++ tier_cands re flt season episode strict_of files)
               (loose_matches c ++ tier_cands re flt season episode loose_of files)
               (loosest_matches c ++ tier_cands re flt season episode loosest_of files)).
Proof.
  intros re flt season episode sub files.
  induction files as [|f rest IH]; intros c Hf.
  - destruct c; simpl. rewrite !app_nil_r. reflexivity.
  - inversion Hf as [|? ? Hd Hrest]; subst. simpl.
    unfold tier_cands in *. simpl.
    destruct (node_is_dir f) eqn:Hdir.
    + rewrite (Hd eq_refl). destruct (is_empty (node_children f)); simpl; apply IH; exact Hrest.
    + rewrite IH by exact Hrest.
      destruct (classify re flt season episode (node_name f)); simpl;
        rewrite <- ?app_assoc; reflexivity.
Qed.

Lemma select_top_tier : forall c, select c = first_of (top_tier c).
Proof.
  intros [s l ll]. unfold select, top_tier. simpl.
  destruct s; [destruct l|]; reflexivity.
Qed.

Lemma scan_with_skip_prefix : forall re flt season episode sub pre rest c,
  Forall (fun d => node_is_dir d = true -> sub d = None) pre ->
  exists c', scan_with re flt season episode sub (pre ++ rest) c =
             scan_with re flt season episode sub rest c'.
Proof.
  intros re flt season episode sub pre rest.
  induction pre as [|f pre IH]; intros c Hf.
  - exists c. reflexivity.
  - inversion Hf as [|? ? Hd Hrest]; subst. simpl.
    destruct (node_is_dir f) eqn:Hdir.
    + rewrite (Hd eq_refl). destruct (is_empty (node_children f)); apply IH; exact Hrest.
    + apply IH. exact Hrest.
Qed.

Lemma match_dir_some_nonempty : forall re flt season episode d m,
  match_dir re flt season episode d = Some m -> is_empty (node_children d) = false.
Proof.
  intros re flt season episode [nm isdir [|x r]] m H; [|reflexivity].
  discriminate H.
Qed.

Lemma match_episode_file_subdir_hit : forall re flt pre d post title season episode m,
  Forall (fun x => node_is_dir x = true -> match_dir re flt season episode x = None) pre ->
  node_is_dir d = true ->
  match_dir re flt season episode d = Some m ->
  match_episode_file re (pre ++ d :: post) title season episode flt = Some m.
Proof.
  intros re flt pre d post title season episode m Hpre Hd Hm.
  unfold match_episode_file.
  destruct (scan_with_skip_prefix re flt season episode (match_dir re flt season episode)
              pre (d :: post) no_cands Hpre) as [c' ->].
  simpl. rewrite Hd, (match_dir_some_nonempty _ _ _ _ _ _ Hm), Hm. reflexivity.
Qed.

(** C5 (amended): in non-strict (best-version) mode [SubscribeFilter.match]
    accepts every file with score 100 times the number of configured rules
    found in its name; [is_perfect_match] holds exactly when no configured
    rule fails; among the files listed at one directory level, when no
    subdirectory there yields a match, [match_episode_file] returns the
    first candidate of greatest filter score of the highest non-empty
    tier; and when a subdirectory yields a match and no subdirectory
    listed before it does, that match is returned, whatever the other
    files of the level and their scores. *)
Theorem best_version_scoring_and_selection :
  (forall re_search f file_name,
     strict f = false ->
     filter_match re_search f file_name = (true, 100 * satisfied_rules re_search f file_name)) /\
  (forall re_search f file_name,
     is_perfect_match re_search f file_name = true <->
     (rule_fails re_search (quality f) file_name = false /\
      rule_fails re_search (resolution f) file_name = false /\
      rule_fails re_search (effect f) file_name = false)) /\
  (forall re_search flt files title season episode,
     Forall (fun d => node_is_dir d = true -> match_dir re_search flt season episode d = None) files ->
     let c := mkcands (tier_cands re_search flt season episode strict_of files)
                      (tier_cands re_search flt season episode loose_of files)
                      (tier_cands re_search flt season episode loosest_of files) in
     match_episode_file re_search files title season episode flt = first_of (top_tier c) /\
     (forall m, first_of (top_tier c) = Some m ->
        exists pre sc post, top_tier c = (pre ++ (m, sc) :: post)%list /\
          Forall (fun y => snd y < sc) pre /\ Forall (fun y => snd y <= sc) post)) /\
  (forall re_search flt pre d post title season episode m,
     Forall (fun x => node_is_dir x = true -> match_dir re_search flt season episode x = None) pre ->
     node_is_dir d = true ->
     match_dir re_search flt season episode d = Some m ->
     match_episode_file re_search (pre ++ d :: post) title season episode flt = Some m).
Proof.
  split; [|split; [|split]].
  - intros re [q r e st] file_name Hs. simpl in Hs. subst st.
    unfold filter_match, satisfied_rules, has_filters, check_rule, truthy; simpl.
    destruct q as [q|]; destruct r as [r|]; destruct e as [e|]; simpl;
      repeat match goal with
             | |- context [String.eqb ?x ""] => destruct (String.eqb x "")
             | |- context [re ?x file_name] => destruct (re x file_name)
             end;
      reflexivity.
  - intros re [q r e st] file_name.
    unfold is_perfect_match, has_filters, rule_fails, truthy; simpl.
    destruct q as [q|]; destruct r as [r|]; destruct e as [e|]; simpl;
      repeat match goal with
             | |- context [String.eqb ?x ""] => destruct (String.eqb x "")
             | |- context [re ?x file_name] => destruct (re x file_name)
             end;
      simpl; intuition discriminate.
  - intros re flt files title season episode Hf c. split.
    + unfold match_episode_file, finish.
      rewrite (scan_with_no_subdir_hit re flt season episode _ files no_cands Hf).
      rewrite select_top_tier. reflexivity.
    + intros m Hm. exact (first_of_spec _ _ Hm).
  - exact match_episode_file_subdir_hit.
Qed.

Lemma best_version_scoring_and_selection_witness :
  match_episode_file literal_search
    [mknode "Show.S02E05.1080p.mkv" false []; mknode "Show.S02E05.2160p.mkv" false []]
    "Show" 2 5 (Some (mkSubscribeFilter None (Some "2160p") None false))
  = Some (mknode "Show.S02E05.2160p.mkv" false []) /\
  match_episode_file literal_search
    ([mknode "Show.S02E05.2160p.mkv" false []; mknode "empty" true []] ++
     mknode "extras" true [mknode "Show.S02E05.1080p.mkv" false []] ::
     [mknode "Show.S02E05.2160p.HDR.mkv" false []])
    "Show" 2 5 (Some (mkSubscribeFilter None (Some "2160p") None false))
  = Some (mknode "Show.S02E05.1080p.mkv" false []).
Proof.
  split.
  - rewrite (proj1 (proj1 (proj2 (proj2 best_version_scoring_and_selection)) literal_search
                     (Some (mkSubscribeFilter None (Some "2160p") None false))
                     [mknode "Show.S02E05.1080p.mkv" false []; mknode "Show.S02E05.2160p.mkv" false []]
                     "Show" 2 5 ltac:(repeat constructor; simpl; discriminate))).
    vm_compute. reflexivity.
  - apply (proj2 (proj2 (proj2 best_version_scoring_and_selection)) literal_search
             (Some (mkSubscribeFilter None (Some "2160p") None false))
             [mknode "Show.S02E05.2160p.mkv" false []; mknode "empty" true []]
             (mknode "extras" true [mknode "Show.S02E05.1080p.mkv" false []])
             [mknode "Show.S02E05.2160p.HDR.mkv" false []] "Show" 2 5).
    + constructor; [simpl; discriminate|].
      constructor; [intros _; reflexivity|]. constructor.
    + reflexivity.
    + vm_compute. reflexivity.
Defined.

(** ** C10 witness *)

Lemma match_episode_file_returns_video_witness :
  match_episode_file literal_search [mknode "extras" true []; mknode "Show.S02E05.MKV" false []]
    "Show" 2 5 None = Some (mknode "Show.S02E05.MKV" false []) /\
  node_is_dir (mknode "Show.S02E05.MKV" false []) = false /\
  In (lower (suffix (node_name (mknode "Show.S02E05.MKV" false [])))) VIDEO_EXTENSIONS.
Proof.
  assert (H : match_episode_file literal_search
                [mknode "extras" true []; mknode "Show.S02E05.MKV" false []]
                "Show" 2 5 None = Some (mknode "Show.S02E05.MKV" false []))
    by (vm_compute; reflexivity).
  split; [exact H|].
  exact (match_episode_file_returns_video literal_search _ _ _ _ _ _ H).
Defined.

(** ** C1 *)

Lemma filter_length_le' : forall {A} (f : A -> bool) (l : list A),
  length (filter f l) <= length l.
Proof.
  intros A f l. induction l as [|x l IH]; simpl; [lia|].
  destruct (f x); simpl; lia.
Qed.

(** The TV resource loop respects the quota: from a count within the
    limit it ends within the limit. *)
Lemma tv_resource_loop_within_quota :
  forall max tv_matched transfer_files_batch s rs missing count,
  count <= max ->
  tv_resource_loop max tv_matched transfer_files_batch s rs missing count <= max.
Proof.
  intros max tvm tfb s rs. induction rs as [|u rest IH]; intros missing count Hc; simpl; [lia|].
  destruct (Nat.leb_spec max count); [lia|].
  destruct (tvm s u missing) as [|it its] eqn:Hm; [apply IH; lia|].
  remember (if max - count <? S (length its)
            then firstn (max - count) (it :: its) else it :: its) as items eqn:Hitems.
  assert (Hi : length items <= max - count).
  { subst items. destruct (Nat.ltb_spec (max - count) (S (length its))).
    - rewrite length_firstn. lia.
    - simpl. lia. }
  match goal with
  | |- context [count + length (filter ?p items)] =>
      pose proof (filter_length_le' p items)
  end.
  destruct (is_empty _); [lia|]. apply IH. lia.
Qed.

Lemma tv_resource_loop_within_quota_witness :
  tv_resource_loop 2 (fun _ _ _ => [(1, "f1"); (2, "f2"); (3, "f3")]) (fun _ ids => ids)
    7 ["u1"; "u2"] [1; 2; 3] 0 = 2 /\
  tv_resource_loop 2 (fun _ _ _ => [(1, "f1"); (2, "f2"); (3, "f3")]) (fun _ ids => ids)
    7 ["u1"; "u2"] [1; 2; 3] 0 <= 2.
Proof.
  split; [reflexivity|].
  apply (tv_resource_loop_within_quota 2 (fun _ _ _ => [(1, "f1"); (2, "f2"); (3, "f3")])
           (fun _ ids => ids) 7 ["u1"; "u2"] [1; 2; 3] 0).
  lia.
Defined.

(** C1 (code bug): the movie loop of [_do_sync] (and of
    [SyncHandler.process_movie_subscribe]) adds one to
    [transferred_count] for every movie it transfers and never compares
    it with [max_transfer_per_sync]; only the TV loop does.  With a limit
    of 1 and two movie subscriptions, each with one resource whose
    transfer succeeds, the run ends with [transferred_count = 2]. *)
Theorem do_sync_movies_exceed_quota :
  do_sync_count 1 (fun _ => false) (fun _ => ["https://115.com/s/abc?password=xyz"])
    (fun _ _ => Some true)
    (fun _ => true) (fun _ => []) (fun _ => []) (fun _ _ _ => []) (fun _ ids => ids)
    [1; 2] [] = 2 /\ 1 < 2.
Proof. split; [reflexivity | lia]. Qed.

(** ** C6 *)

(** C6: the ledger saved at the end of a run holds at most 500 entries:
    it is the last [min 500 n] entries of the [n] loaded and appended
    ones, so only the oldest are dropped. *)
Theorem saved_history_capped :
  forall loaded appended : list history_item,
  let saved := save_history loaded appended in
  length saved <= 500 /\
  length saved = Nat.min 500 (length (loaded ++ appended)) /\
  exists dropped, (loaded ++ appended)%list = (dropped ++ saved)%list.
Proof.
  intros loaded appended saved. subst saved. unfold save_history, last_500.
  set (l := (loaded ++ appended)%list).
  rewrite length_skipn. split; [lia|]. split; [lia|].
  exists (firstn (length l - 500) l). symmetry. apply firstn_skipn.
Qed.

(* ================================================================== *)
(** * Further properties of the client and the matcher *)

(** ** The [OrderedDict] operations *)

Lemma od_get_app : forall {V} k (d1 d2 : list (string * V)),
  od_get k (d1 ++ d2)%list = match od_get k d1 with Some v => Some v | None => od_get k d2 end.
Proof.
  intros V k d1 d2. induction d1 as [|[k' v'] r IH]; simpl; [reflexivity|].
  destruct (String.eqb k' k); [reflexivity | exact IH].
Qed.

Lemma od_get_pop_same : forall {V} k (d : list (string * V)), od_get k (od_pop k d) = None.
Proof.
  intros V k d. induction d as [|[k' v'] r IH]; simpl; [reflexivity|].
  destruct (String.eqb k' k) eqn:E; simpl; [exact IH|]. rewrite E. exact IH.
Qed.

Lemma od_get_pop_other : forall {V} k k' (d : list (string * V)),
  k' <> k -> od_get k' (od_pop k d) = od_get k' d.
Proof.
  intros V k k' d Hne. induction d as [|[k0 v0] r IH]; simpl; [reflexivity|].
  destruct (String.eqb k0 k) eqn:E; simpl.
  - apply String.eqb_eq in E. subst k0.
    destruct (String.eqb_spec k k'); [congruence | exact IH].
  - destruct (String.eqb k0 k'); [reflexivity | exact IH].
Qed.

Lemma od_pop_absent : forall {V} k (d : list (string * V)),
  od_get k d = None -> od_pop k d = d.
Proof.
  intros V k d. induction d as [|[k' v'] r IH]; simpl; intros H; [reflexivity|].
  destruct (String.eqb k' k); [discriminate|]. simpl. f_equal. exact (IH H).
Qed.

Lemma od_assign_absent : forall {V} k v (d : list (string * V)),
  od_get k d = None -> od_assign k v d = (d ++ [(k, v)])%list.
Proof.
  intros V k v d. induction d as [|[k' v'] r IH]; simpl; intros H; [reflexivity|].
  destruct (String.eqb k' k); [discriminate|]. f_equal. exact (IH H).
Qed.

Lemma od_get_assign_same : forall {V} k v (d : list (string * V)),
  od_get k (od_assign k v d) = Some v.
Proof.
  intros V k v d. induction d as [|[k' v'] r IH]; simpl.
  - rewrite String.eqb_refl. reflexivity.
  - destruct (String.eqb k' k) eqn:E; simpl.
    + rewrite String.eqb_refl. reflexivity.
    + rewrite E. exact IH.
Qed.

Lemma od_get_assign_other : forall {V} k k' v (d : list (string * V)),
  k <> k' -> od_get k' (od_assign k v d) = od_get k' d.
Proof.
  intros V k k' v d Hne. induction d as [|[k0 v0] r IH]; simpl.
  - destruct (String.eqb_spec k k'); [congruence | reflexivity].
  - destruct (String.eqb k0 k) eqn:E; simpl.
    + apply String.eqb_eq in E. subst k0.
      destruct (String.eqb_spec k k'); [congruence | reflexivity].
    + destruct (String.eqb k0 k'); [reflexivity | exact IH].
Qed.

Lemma od_move_to_end_found : forall {V} k v (d : list (string * V)),
  od_get k d = Some v ->
  od_move_to_end k d = (od_pop k d ++ [(k, v)])%list /\ od_get k (od_pop k d) = None.
Proof.
  intros V k v d H. unfold od_move_to_end. rewrite H. split; [reflexivity|].
  apply od_get_pop_same.
Qed.

Lemma od_get_skipn_none : forall {V} k n (d : list (string * V)),
  od_get k d = None -> od_get k (skipn n d) = None.
Proof.
  intros V k n. induction n as [|n IH]; intros d H; [exact H|].
  destruct d as [|[k' v'] r]; [reflexivity|]. simpl in *.
  destruct (String.eqb k' k); [discriminate|]. apply IH, H.
Qed.

Lemma evict_spec : forall {V} fuel max (d : list (string * cache_item V)),
  length d - max <= fuel -> evict fuel max d = skipn (length d - max) d.
Proof.
  intros V fuel. induction fuel as [|f IH]; intros max d H; simpl.
  - replace (length d - max) with 0 by lia. reflexivity.
  - destruct (Nat.ltb_spec max (length d)).
    + destruct d as [|x r]; cbn [length tl] in *; [lia|].
      rewrite IH by lia. replace (S (length r) - max) with (S (length r - max)) by lia.
      reflexivity.
    + replace (length d - max) with 0 by lia. reflexivity.
Qed.

(** ** [_LRUTTLCache] *)

Lemma cache_set_data : forall {V} now k (v : V) ttl (c : lru_ttl_cache V),
  exists pre,
    od_get k pre = None /\
    cache_data (cache_set now k v ttl c) =
    skipn (S (length pre) - maxsize c)
      (pre ++ [(k, mkcache_item v (now + match ttl with None => ttl_sec c | Some t => t end))])%list.
Proof.
  intros V now k v ttl c. unfold cache_set. simpl.
  set (it := mkcache_item v (now + match ttl with None => ttl_sec c | Some t => t end)).
  destruct (od_move_to_end_found k it (od_assign k it (cache_data c)) (od_get_assign_same _ _ _))
    as [Hm Hn].
  exists (od_pop k (od_assign k it (cache_data c))). split; [exact Hn|].
  rewrite Hm. rewrite evict_spec by lia. rewrite length_app. simpl.
  rewrite Nat.add_1_r. reflexivity.
Qed.

Lemma Qltb_false : forall a b, Qltb a b = false <-> (b <= a)%Q.
Proof.
  intros a b. unfold Qltb. rewrite negb_false_iff. apply Qle_bool_iff.
Qed.

Lemma Qltb_true : forall a b, Qltb a b = true <-> (a < b)%Q.
Proof.
  intros a b. unfold Qltb. rewrite negb_true_iff. split.
  - intros H. apply Qnot_le_lt. intros H'. apply Qle_bool_iff in H'. congruence.
  - intros H. destruct (Qle_bool b a) eqn:E; [|reflexivity].
    apply Qle_bool_iff in E. exfalso. apply (Qlt_not_le a b H E).
Qed.

(** X1: a value stored with [set] is returned by a [get] of its key made
    before it expires (no later than [now + ttl]), whatever else the cache
    held, as long as [maxsize] is at least 1. *)
Theorem cache_set_then_get :
  forall {V} (c : lru_ttl_cache V) now now' k v ttl,
  1 <= maxsize c ->
  (now' <= now + match ttl with None => ttl_sec c | Some t => t end)%Q ->
  fst (cache_get now' k (cache_set now k v ttl c)) = (true, Some v).
Proof.
  intros V c now now' k v ttl Hmax Hnow.
  destruct (cache_set_data now k v ttl c) as (pre & Hpre & Hd).
  unfold cache_get. rewrite Hd.
  rewrite skipn_app. rewrite od_get_app.
  rewrite (od_get_skipn_none k _ pre Hpre).
  replace (S (length pre) - maxsize c - length pre) with 0 by lia. simpl.
  rewrite String.eqb_refl. simpl.
  replace (Qltb (now + match ttl with None => ttl_sec c | Some t => t end) now') with false.
  - reflexivity.
  - symmetry. apply Qltb_false. exact Hnow.
Qed.

Lemma cache_set_then_get_witness :
  fst (cache_get (5 # 1) "/Movies"
         (cache_set (0 # 1) "/Movies" 42%Z None
            (mklru_ttl_cache 1 (3600 # 1) [("/", mkcache_item 0%Z (86400 # 1))])))
  = (true, Some 42%Z).
Proof.
  apply cache_set_then_get; [simpl; lia | vm_compute; discriminate].
Defined.

(** X2: after a [set] the cache holds at most [maxsize] entries; the
    entries it drops are the oldest ones.  With [maxsize = 0] it keeps
    nothing, so the value just stored is already gone. *)
Theorem cache_set_bounded :
  forall {V} (c : lru_ttl_cache V) now k v ttl,
  length (cache_data (cache_set now k v ttl c)) <= maxsize c /\
  (maxsize c = 0 -> forall now', fst (cache_get now' k (cache_set now k v ttl c)) = (false, None)).
Proof.
  intros V c now k v ttl.
  destruct (cache_set_data now k v ttl c) as (pre & Hpre & Hd).
  split.
  { rewrite Hd, length_skipn, length_app. cbn [length]. lia. }
  intros H0 now'. unfold cache_get. rewrite Hd, H0.
  replace (S (length pre) - 0) with (length (pre ++ [(k, mkcache_item v
     (now + match ttl with None => ttl_sec c | Some t => t end))])%list)
    by (rewrite length_app; simpl; lia).
  rewrite skipn_all. reflexivity.
Qed.

Lemma cache_set_bounded_witness :
  fst (cache_get (0 # 1) "k" (cache_set (0 # 1) "k" 1%Z None (mklru_ttl_cache 0 (15 # 1) [])))
  = (false, None) /\
  length (cache_data (cache_set (0 # 1) "k" 1%Z None (mklru_ttl_cache 0 (15 # 1) []))) <= 0.
Proof.
  split.
  - apply (proj2 (cache_set_bounded (mklru_ttl_cache 0 (15 # 1) []) (0 # 1) "k" 1%Z None)).
    reflexivity.
  - apply (proj1 (cache_set_bounded (mklru_ttl_cache 0 (15 # 1) []) (0 # 1) "k" 1%Z None)).
Defined.

(** X3: a [get] of a stored key hits exactly while [now <= expire_at]
    (an entry is still served at its expiry instant); once [now] is past
    [expire_at] the [get] misses and removes the entry. *)
Theorem cache_get_expiry :
  forall {V} (c : lru_ttl_cache V) now k item,
  od_get k (cache_data c) = Some item ->
  ((now <= expire_at item)%Q -> fst (cache_get now k c) = (true, Some (value item))) /\
  ((expire_at item < now)%Q ->
     fst (cache_get now k c) = (false, None) /\
     od_get k (cache_data (snd (cache_get now k c))) = None).
Proof.
  intros V c now k item H. unfold cache_get. rewrite H. split; intros Hq.
  - replace (Qltb (expire_at item) now) with false; [reflexivity|].
    symmetry. apply Qltb_false. exact Hq.
  - replace (Qltb (expire_at item) now) with true.
    + split; [reflexivity|]. simpl. apply od_get_pop_same.
    + symmetry. apply Qltb_true. exact Hq.
Qed.

Lemma cache_get_expiry_witness :
  fst (cache_get (20 # 1) "files:7"
         (mklru_ttl_cache 2000 (15 # 1) [("files:7", mkcache_item 3%nat (15 # 1))]))
  = (false, None).
Proof.
  apply (proj1 (proj2 (cache_get_expiry
           (mklru_ttl_cache 2000 (15 # 1) [("files:7", mkcache_item 3%nat (15 # 1))])
           (20 # 1) "files:7" (mkcache_item 3%nat (15 # 1)) eq_refl)
           ltac:(vm_compute; reflexivity))).
Defined.

(** X4: after [delete(k)] a [get] of [k] misses, and the entries of the
    other keys are unchanged. *)
Theorem cache_delete_get :
  forall {V} (c : lru_ttl_cache V) now k,
  fst (cache_get now k (cache_delete k c)) = (false, None) /\
  (forall k', k' <> k -> od_get k' (cache_data (cache_delete k c)) = od_get k' (cache_data c)).
Proof.
  intros V c now k. split.
  - unfold cache_get, cache_delete. simpl. rewrite od_get_pop_same. reflexivity.
  - intros k' Hne. unfold cache_delete. simpl. apply od_get_pop_other. exact Hne.
Qed.

Lemma cache_delete_get_witness :
  od_get "/b" (cache_data (cache_delete "/a"
     (mklru_ttl_cache 10 (1 # 1) [("/a", mkcache_item 1%Z (9 # 1)); ("/b", mkcache_item 2%Z (9 # 1))])))
  = Some (mkcache_item 2%Z (9 # 1)).
Proof.
  rewrite (proj2 (cache_delete_get
     (mklru_ttl_cache 10 (1 # 1) [("/a", mkcache_item 1%Z (9 # 1)); ("/b", mkcache_item 2%Z (9 # 1))])
     (0 # 1) "/a") "/b" ltac:(discriminate)).
  reflexivity.
Defined.

(** X5: [set] of a new key on a full cache ([maxsize] entries, at least 1)
    evicts exactly the least recently used entry (the first one) and
    appends the new one; a [get] hit makes its key the most recently used. *)
Theorem cache_lru_eviction :
  forall {V} (c : lru_ttl_cache V) now k v ttl,
  (length (cache_data c) = maxsize c -> 1 <= maxsize c -> od_get k (cache_data c) = None ->
   cache_data (cache_set now k v ttl c) =
   (tl (cache_data c) ++
      [(k, mkcache_item v (now + match ttl with None => ttl_sec c | Some t => t end))])%list) /\
  (forall item, od_get k (cache_data c) = Some item -> (now <= expire_at item)%Q ->
   cache_data (snd (cache_get now k c)) = (od_pop k (cache_data c) ++ [(k, item)])%list).
Proof.
  intros V c now k v ttl. split.
  - intros Hlen Hmax Hk. unfold cache_set. simpl.
    rewrite (od_assign_absent _ _ _ Hk).
    set (it := mkcache_item v (now + match ttl with None => ttl_sec c | Some t => t end)).
    assert (Hg : od_get k (cache_data c ++ [(k, it)])%list = Some it).
    { rewrite od_get_app, Hk. simpl. rewrite String.eqb_refl. reflexivity. }
    destruct (od_move_to_end_found _ _ _ Hg) as [Hm _]. rewrite Hm.
    assert (Hp : od_pop k (cache_data c ++ [(k, it)])%list = cache_data c).
    { unfold od_pop. rewrite filter_app. fold (od_pop k (cache_data c)).
      rewrite (od_pop_absent _ _ Hk). simpl. rewrite String.eqb_refl. simpl. apply app_nil_r. }
    rewrite Hp. rewrite evict_spec by lia. rewrite length_app. cbn [length].
    replace (length (cache_data c) + 1 - maxsize c) with 1 by lia.
    destruct (cache_data c) as [|x r]; cbn [length] in Hlen; [lia|]. reflexivity.
  - intros item Hk Hq. unfold cache_get. rewrite Hk.
    replace (Qltb (expire_at item) now) with false.
    + simpl. unfold od_move_to_end. rewrite Hk. reflexivity.
    + symmetry. apply Qltb_false. exact Hq.
Qed.

Lemma cache_lru_eviction_witness :
  cache_data (cache_set (0 # 1) "/c" 3%Z None
    (mklru_ttl_cache 2 (60 # 1) [("/a", mkcache_item 1%Z (60 # 1)); ("/b", mkcache_item 2%Z (60 # 1))]))
  = [("/b", mkcache_item 2%Z (60 # 1)); ("/c", mkcache_item 3%Z ((0 # 1) + (60 # 1))%Q)].
Proof.
  apply (proj1 (cache_lru_eviction
    (mklru_ttl_cache 2 (60 # 1) [("/a", mkcache_item 1%Z (60 # 1)); ("/b", mkcache_item 2%Z (60 # 1))])
    (0 # 1) "/c" 3%Z None)); [reflexivity | simpl; lia | reflexivity].
Defined.

(** ** [_RateLimiter] *)

(** X6: a limiter built from any [rps] and [jitter_sec] has a positive
    [min_interval] of at most 10000 seconds; and when two [wait]s on the same
    limiter follow each other (the second entered after the first returned,
    each [time.sleep(d)] lasting at least [d], the jitter draw
    non-negative), the second returns at least [min_interval] after the
    first. *)
Theorem rate_limiter_spacing :
  (forall r j, (0 < min_interval (new_rate_limiter r j))%Q /\
               (min_interval (new_rate_limiter r j) <= 10000)%Q) /\
  (forall l after1 u1 now2 after2,
    (0 <= u1)%Q ->
    (after1 <= now2)%Q ->
    (now2 + wait_sleep (wait l after1 u1) now2 <= after2)%Q ->
    (after1 + min_interval l <= after2)%Q).
Proof.
  split.
  - intros r j. unfold new_rate_limiter, pymax. simpl.
    destruct (Qle_bool r (1 # 10000)) eqn:E.
    + split; [vm_compute; reflexivity | apply Qle_bool_iff; vm_compute; reflexivity].
    + assert (Hr : (1 # 10000 < r)%Q).
      { apply Qnot_le_lt. intros H. apply Qle_bool_iff in H. congruence. }
      assert (Hr0 : (0 < r)%Q) by lra.
      split.
      * apply Qlt_shift_div_l; [exact Hr0 | lra].
      * apply Qle_shift_div_r; [exact Hr0 | lra].
  - intros l after1 u1 now2 after2 Hu H12 Hs.
    unfold wait_sleep, wait in Hs. simpl in Hs.
    destruct (Qltb now2 (after1 + min_interval l + u1)) eqn:E.
    + lra.
    + apply Qltb_false in E. lra.
Qed.

Lemma rate_limiter_spacing_witness :
  (0 < min_interval (new_rate_limiter (7 # 10) (45 # 100)))%Q /\
  ((0 # 1) + min_interval (new_rate_limiter (7 # 10) (45 # 100)) <= 2)%Q.
Proof.
  split.
  - apply (proj1 (proj1 rate_limiter_spacing (7 # 10) (45 # 100))).
  - apply ((proj2 rate_limiter_spacing) (new_rate_limiter (7 # 10) (45 # 100)) 0%Q 0%Q 1%Q 2%Q);
      vm_compute; try discriminate; reflexivity.
Defined.

(** ** The request counter *)

Lemma inc_req_cases : forall a st,
  match inc_req a st with
  | None => req_logs (S (req_total st)) = true
  | Some st' => req_logs (S (req_total st)) = false /\ req_total st' = S (req_total st)
  end.
Proof.
  intros a st. unfold inc_req. cbv zeta.
  destruct (req_logs (S (req_total st))) eqn:E; [reflexivity|]. simpl. auto.
Qed.

Lemma inc_req_counts : forall a st st',
  inc_req a st = Some st' ->
  req_total st' = S (req_total st) /\
  (forall b, match od_get b (req_count st') with Some n => n | None => 0 end
             = match od_get b (req_count st) with Some n => n | None => 0 end
               + (if string_dec a b then 1 else 0)).
Proof.
  intros a st st' H. unfold inc_req in H. cbv zeta in H.
  destruct (req_logs (S (req_total st))); [discriminate|]. injection H as <-.
  simpl. split; [reflexivity|]. intros b.
  destruct (string_dec a b) as [<-|Hne].
  - rewrite od_get_assign_same. lia.
  - rewrite od_get_assign_other by exact Hne. lia.
Qed.

Lemma run_reqs_spec : forall apis st,
  (forall j, 1 <= j <= length apis -> req_logs (req_total st + j) = false) ->
  exists st', run_reqs apis st = Some st' /\
    req_total st' = req_total st + length apis /\
    (forall a, match od_get a (req_count st') with Some n => n | None => 0 end
               = match od_get a (req_count st) with Some n => n | None => 0 end
                 + count_occ string_dec apis a).
Proof.
  induction apis as [|x r IH]; intros st H; cbn [run_reqs length count_occ].
  - exists st. split; [reflexivity|]. split; [lia|]. intros a. lia.
  - pose proof (inc_req_cases x st) as Hc.
    destruct (inc_req x st) as [st1|] eqn:E.
    + destruct (inc_req_counts x st st1 E) as [Ht Hcnt].
      destruct (IH st1) as (st' & Hr & Ht' & Hc').
      { intros j Hj. rewrite Ht. replace (S (req_total st) + j) with (req_total st + S j) by lia.
        apply H. simpl. lia. }
      exists st'. split; [exact Hr|]. split; [lia|].
      intros a. rewrite Hc', Hcnt.
      destruct (string_dec x a), (string_dec a x); subst; try congruence; lia.
    + exfalso. specialize (H 1 ltac:(simpl; lia)). rewrite Nat.add_1_r in H. congruence.
Qed.

Lemma run_reqs_blocks : forall apis st j,
  1 <= j <= length apis -> req_logs (req_total st + j) = true -> run_reqs apis st = None.
Proof.
  induction apis as [|x r IH]; intros st j Hj Hl; simpl in Hj; [lia|].
  cbn [run_reqs]. pose proof (inc_req_cases x st) as Hc.
  destruct (inc_req x st) as [st1|]; [|reflexivity].
  destruct Hc as [Hf Ht].
  destruct (Nat.eq_dec j 1) as [->|Hne].
  - rewrite Nat.add_1_r in Hl. congruence.
  - apply (IH st1 (j - 1)); [lia|]. rewrite Ht.
    replace (S (req_total st) + (j - 1)) with (req_total st + j) by lia. exact Hl.
Qed.

(** X7: [_inc_req] counts the requests one after the other.  While no
    request number reaches a multiple of [_log_req_every] (5),
    [get_request_stats()] reports under ["total"] the previous total plus
    the number of requests and, for every API name other than ["total"],
    its previous count plus its number of requests; a request whose number
    is such a multiple never returns, and neither does any later one.  So
    on a new manager a sequence of requests completes exactly when it has
    fewer than 5 requests. *)
Theorem request_stats_count :
  forall apis st a,
  ((forall j, 1 <= j <= length apis -> req_logs (req_total st + j) = false) ->
   exists st', run_reqs apis st = Some st' /\
     od_get "total" (get_request_stats st') = Some (req_total st + length apis) /\
     (a <> "total" ->
      match od_get a (get_request_stats st') with Some n => n | None => 0 end
      = match od_get a (req_count st) with Some n => n | None => 0 end
        + count_occ string_dec apis a)) /\
  (forall j, 1 <= j <= length apis -> req_logs (req_total st + j) = true ->
   run_reqs apis st = None) /\
  (run_reqs apis new_req_stats <> None <-> length apis < log_req_every).
Proof.
  intros apis st a. split; [|split].
  - intros H. destruct (run_reqs_spec apis st H) as (st' & Hr & Ht & Hc).
    exists st'. split; [exact Hr|]. unfold get_request_stats. split.
    + rewrite od_get_assign_same, Ht. reflexivity.
    + intros Hne. rewrite od_get_assign_other by (intros E; apply Hne; symmetry; exact E).
      apply Hc.
  - intros j Hj Hl. exact (run_reqs_blocks apis st j Hj Hl).
  - split.
    + intros H. unfold log_req_every. destruct (Nat.lt_ge_cases (length apis) 5) as [Hl|Hl];
        [exact Hl|].
      exfalso. apply H. apply (run_reqs_blocks apis new_req_stats 5); [lia|reflexivity].
    + intros Hl. unfold log_req_every in Hl.
      destruct (run_reqs_spec apis new_req_stats) as (st' & Hr & _).
      * intros j Hj. simpl. unfold req_logs, log_req_every.
        rewrite Nat.mod_small by lia. destruct j; [lia|reflexivity].
      * rewrite Hr. discriminate.
Qed.

Lemma request_stats_count_witness :
  match od_get "share_receive"
    (get_request_stats (match run_reqs ["dir_getid"; "share_receive"; "share_receive"] new_req_stats
                        with Some st => st | None => new_req_stats end))
  with Some n => n | None => 0 end = 2 /\
  run_reqs ["dir_getid"; "share_receive"; "share_receive"; "share_receive"; "share_receive"]
    new_req_stats = None.
Proof.
  split.
  - destruct (proj1 (request_stats_count ["dir_getid"; "share_receive"; "share_receive"]
                       new_req_stats "share_receive"))
      as (st' & Hr & _ & Hc).
    + intros j Hj. simpl in Hj. unfold req_logs, log_req_every. simpl.
      destruct j as [|[|[|[|]]]]; try lia; reflexivity.
    + rewrite Hr. rewrite (Hc ltac:(discriminate)). reflexivity.
  - apply (proj1 (proj2 (request_stats_count
       ["dir_getid"; "share_receive"; "share_receive"; "share_receive"; "share_receive"]
       new_req_stats "share_receive")) 5); [simpl; lia | reflexivity].
Defined.

(** ** [_is_risk_control_text] *)

Lemma lower_app : forall s t, lower (s ++ t) = lower s ++ lower t.
Proof. induction s as [|c s IH]; intros t; simpl; [reflexivity | rewrite IH; reflexivity]. Qed.

Lemma lower_char_idem : forall c, lower_char (lower_char c) = lower_char c.
Proof.
  intros [b0 b1 b2 b3 b4 b5 b6 b7].
  destruct b0, b1, b2, b3, b4, b5, b6, b7; vm_compute; reflexivity.
Qed.

Lemma lower_idem : forall s, lower (lower s) = lower s.
Proof. induction s as [|c s IH]; simpl; [reflexivity | rewrite lower_char_idem, IH; reflexivity]. Qed.

Lemma lower_empty : forall s, String.eqb (lower s) "" = String.eqb s "".
Proof. destruct s; reflexivity. Qed.

Lemma prefix_app : forall n s t, prefix n s = true -> prefix n (s ++ t) = true.
Proof.
  induction n as [|a n IH]; intros s t H; [destruct (s ++ t); reflexivity|].
  destruct s as [|b s]; [discriminate|]. simpl in *.
  destruct (ascii_dec a b); [apply IH; exact H | discriminate].
Qed.

Lemma contains_app_l : forall n s t, contains n s = true -> contains n (s ++ t) = true.
Proof.
  intros n s t. induction s as [|c s IH]; intros H.
  - simpl in H. destruct n; [destruct t; reflexivity | discriminate].
  - change (contains n (String c s)) with (prefix n (String c s) || contains n s) in H.
    change (String c s ++ t) with (String c (s ++ t)).
    change (contains n (String c (s ++ t)))
      with (prefix n (String c s ++ t) || contains n (s ++ t)).
    apply orb_true_iff in H. apply orb_true_iff.
    destruct H as [H|H].
    + left. apply prefix_app. exact H.
    + right. apply IH. exact H.
Qed.

Lemma contains_app_r : forall n s t, contains n t = true -> contains n (s ++ t) = true.
Proof.
  intros n s t H. induction s as [|c s IH]; [exact H|].
  simpl. rewrite IH. apply orb_true_r.
Qed.

Lemma str_append_assoc : forall s1 s2 s3 : string, s1 ++ (s2 ++ s3) = (s1 ++ s2) ++ s3.
Proof. induction s1 as [|c s1 IH]; intros s2 s3; simpl; [reflexivity | rewrite IH; reflexivity]. Qed.

Lemma risk_text_app : forall s t,
  is_risk_control_text s = true ->
  is_risk_control_text (s ++ t) = true /\ is_risk_control_text (t ++ s) = true.
Proof.
  intros s t H. unfold is_risk_control_text in *.
  destruct (String.eqb_spec s "") as [->|Hs]; [discriminate|].
  rewrite !lower_app. apply existsb_exists in H. destruct H as (k & Hk & Hc).
  split.
  - replace (String.eqb (s ++ t) "") with false
      by (destruct s; [congruence | reflexivity]).
    apply existsb_exists. exists k. split; [exact Hk|]. apply contains_app_l. exact Hc.
  - replace (String.eqb (t ++ s) "") with false
      by (destruct t; [destruct s; [congruence | reflexivity] | reflexivity]).
    apply existsb_exists. exists k. split; [exact Hk|]. apply contains_app_r. exact Hc.
Qed.

(** X8: [_is_risk_control_text] is false on the empty string, ignores
    letter case, and stays true when text is added before or after a
    matching string; in particular the [RuntimeError] that [_call] raises
    for a risk-control response (its message contains ["risk-control"])
    is itself classified as risk-control, so that response is retried. *)
Theorem risk_control_text_props :
  is_risk_control_text "" = false /\
  (forall s, is_risk_control_text (lower s) = is_risk_control_text s) /\
  (forall s t, is_risk_control_text s = true ->
     is_risk_control_text (s ++ t) = true /\ is_risk_control_text (t ++ s) = true) /\
  (forall api_name repr_resp attempt i r,
     attempt i = Ok r -> state r = false -> is_risk_control_resp r = true ->
     exists e, try_once api_name attempt repr_resp true i = Raise e /\
               is_risk_control_exc e = true).
Proof.
  split; [reflexivity|]. split; [|split].
  - intros s. unfold is_risk_control_text. rewrite lower_empty, lower_idem. reflexivity.
  - exact risk_text_app.
  - intros api repr att i r Ha Hs Hr. unfold try_once. rewrite Ha, Hs, Hr. simpl.
    eexists. split; [reflexivity|]. unfold is_risk_control_exc, stringify_exc.
    cbn [exc_type exc_msg].
    assert (H1 : is_risk_control_text (" risk-control resp: " ++ repr r) = true)
      by exact (proj1 (risk_text_app " risk-control resp: " (repr r) ltac:(vm_compute; reflexivity))).
    pose proof (proj2 (risk_text_app _ ("RuntimeError" ++ ": " ++ api) H1)) as H2.
    rewrite <- !str_append_assoc in H2. exact H2.
Qed.

Lemma risk_control_text_props_witness :
  is_risk_control_text ("HTTP 429: " ++ "Too Many Requests") = true.
Proof.
  apply (proj1 (proj1 (proj2 (proj2 risk_control_text_props)) "HTTP 429: " "Too Many Requests"
                  ltac:(vm_compute; reflexivity))).
Defined.

(** ** Path normalization in [get_pid_by_path] *)

Lemma replace_backslash_idem : forall s, replace_backslash (replace_backslash s) = replace_backslash s.
Proof.
  induction s as [|c s IH]; simpl; [reflexivity|].
  destruct (Ascii.eqb c "\"%char) eqn:E; simpl; rewrite IH; [reflexivity|].
  rewrite E. reflexivity.
Qed.

Lemma rstrip_idem : forall ch s, rstrip_char ch (rstrip_char ch s) = rstrip_char ch s.
Proof.
  intros ch. induction s as [|c s IH]; simpl; [reflexivity|].
  destruct (String.eqb (rstrip_char ch s) "" && Ascii.eqb c ch) eqn:E; simpl; [reflexivity|].
  rewrite IH, E. reflexivity.
Qed.

Lemma rstrip_no_backslash : forall ch q,
  replace_backslash q = q -> replace_backslash (rstrip_char ch q) = rstrip_char ch q.
Proof.
  intros ch. induction q as [|c q IH]; simpl; intros H; [reflexivity|].
  injection H as Hc Hq.
  destruct (String.eqb (rstrip_char ch q) "" && Ascii.eqb c ch); simpl; [reflexivity|].
  rewrite Hc, (IH Hq). reflexivity.
Qed.

Lemma rstrip_empty_iff : forall ch s,
  rstrip_char ch s = "" <-> forallb (fun c => Ascii.eqb c ch) (list_ascii_of_string s) = true.
Proof.
  intros ch. induction s as [|c s IH]; simpl; [tauto|].
  destruct (String.eqb_spec (rstrip_char ch s) "") as [E|E];
    destruct (Ascii.eqb c ch) eqn:Ec; simpl.
  - split; [intros _; apply IH; exact E | reflexivity].
  - split; intros H; discriminate.
  - split; [discriminate | intros H; exfalso; apply E, IH, H].
  - split; intros H; discriminate.
Qed.

Lemma replace_backslash_slashes : forall s,
  forallb (fun c => Ascii.eqb c "/") (list_ascii_of_string (replace_backslash s)) =
  forallb is_slash_char (list_ascii_of_string s).
Proof.
  induction s as [|c s IH]; simpl; [reflexivity|]. rewrite IH. unfold is_slash_char.
  destruct (Ascii.eqb c "\"%char) eqn:E; simpl.
  - apply Ascii.eqb_eq in E. subst. reflexivity.
  - rewrite orb_false_r. reflexivity.
Qed.

Lemma normalize_path_shape : forall path,
  let n := normalize_path path in
  replace_backslash n = n /\ rstrip_char "/" n = n /\ (n = "" \/ prefix "/" n = true).
Proof.
  intros path n. subst n. unfold normalize_path.
  set (q := replace_backslash (match path with Some s => s | None => "" end)).
  assert (Hq : replace_backslash q = q) by apply replace_backslash_idem.
  assert (Hq2 : exists r, (if prefix "/" q then q else "/" ++ q) = String "/" r /\
                          replace_backslash r = r).
  { destruct (prefix "/" q) eqn:E.
    - destruct q as [|c r]; [discriminate|]. cbn [prefix] in E.
      destruct (ascii_dec "/" c) as [Hc|Hc]; [subst c|discriminate].
      exists r. split; [reflexivity|]. simpl in Hq. congruence.
    - exists q. split; [reflexivity | exact Hq]. }
  destruct Hq2 as (r & Hr & Hrb). rewrite Hr.
  split; [|split].
  - apply rstrip_no_backslash. simpl. rewrite Hrb. reflexivity.
  - apply rstrip_idem.
  - change (rstrip_char "/" (String "/" r)) with
      (if String.eqb (rstrip_char "/" r) "" && Ascii.eqb "/" "/" then ""
       else String "/" (rstrip_char "/" r)).
    rewrite Ascii.eqb_refl, andb_true_r.
    destruct (String.eqb (rstrip_char "/" r) ""); [left; reflexivity|].
    right. cbn [prefix]. destruct (ascii_dec "/" "/") as [_|C]; [destruct (rstrip_char "/" r); reflexivity|congruence].
Qed.

(** X9: without a client [get_pid_by_path] returns [-1]; with one, a path
    that is missing, empty or made only of [/] and [\] is the root [0];
    every other path is resolved (caches, [fs_dir_getid], directory
    creation) under its normal form, which starts with [/], has no [\],
    no trailing [/], and is its own normal form, so spellings that differ
    in separators or trailing slashes share one cache entry. *)
Theorem get_pid_by_path_normalizes :
  forall resolve path mkdir,
  get_pid_by_path false resolve path mkdir = (-1)%Z /\
  (forall s, normalize_path (Some s) = "" <->
             forallb is_slash_char (list_ascii_of_string s) = true) /\
  (normalize_path path = "" -> get_pid_by_path true resolve path mkdir = 0%Z) /\
  (normalize_path path <> "" ->
   get_pid_by_path true resolve path mkdir = resolve (normalize_path path) mkdir /\
   prefix "/" (normalize_path path) = true /\
   replace_backslash (normalize_path path) = normalize_path path /\
   rstrip_char "/" (normalize_path path) = normalize_path path /\
   normalize_path (Some (normalize_path path)) = normalize_path path).
Proof.
  intros resolve path mkdir. split; [reflexivity|]. split; [|split].
  - intros s. unfold normalize_path. rewrite <- replace_backslash_slashes.
    set (q := replace_backslash s).
    destruct (prefix "/" q) eqn:E.
    + apply rstrip_empty_iff.
    + rewrite rstrip_empty_iff. simpl. reflexivity.
  - intros H. unfold get_pid_by_path. simpl. rewrite H. reflexivity.
  - intros H. destruct (normalize_path_shape path) as (Hb & Hs & [Hn|Hp]); [congruence|].
    split; [|split; [exact Hp | split; [exact Hb | split; [exact Hs|]]]].
    + unfold get_pid_by_path. simpl.
      destruct (String.eqb_spec (normalize_path path) "") as [E|_]; [congruence|].
      destruct (String.eqb_spec (normalize_path path) "/") as [E|_]; [|reflexivity].
      exfalso. rewrite E in Hs. discriminate.
    + unfold normalize_path at 1. rewrite Hb, Hp. exact Hs.
Qed.

Lemma get_pid_by_path_normalizes_witness :
  get_pid_by_path true (fun _ _ => 7%Z) (Some "\\") false = 0%Z /\
  get_pid_by_path true (fun p _ => if String.eqb p "/TV/Show" then 7%Z else 0%Z)
    (Some "TV\Show//") true = 7%Z.
Proof.
  split.
  - apply (proj1 (proj2 (proj2 (get_pid_by_path_normalizes (fun _ _ => 7%Z) (Some "\\") false)))).
    vm_compute. reflexivity.
  - destruct (get_pid_by_path_normalizes
        (fun p _ => if String.eqb p "/TV/Show" then 7%Z else 0%Z) (Some "TV\Show//") true)
      as (_ & _ & _ & H).
    rewrite (proj1 (H ltac:(vm_compute; discriminate))).
    vm_compute. reflexivity.
Defined.

(** ** [check_existing_episodes] *)

Lemma existing_of_file_spec : forall meta_of season f ep,
  In ep (existing_of_file meta_of season f) <->
  fs_is_dir f = false /\ is_video (fs_file_name f) = true /\
  contains_other_season (fs_file_name f) season = false /\
  (begin_season (meta_of (fs_file_name f)) = None \/
   begin_season (meta_of (fs_file_name f)) = Some season) /\
  exists b, begin_episode (meta_of (fs_file_name f)) = Some b /\ b <> 0 /\
    (ep = b \/ exists e, end_episode (meta_of (fs_file_name f)) = Some e /\
                        e <> 0 /\ e <> b /\ b <= ep <= e).
Proof.
  intros meta_of season f ep. unfold existing_of_file. cbv zeta.
  set (nm := fs_file_name f). set (m := meta_of nm).
  destruct (fs_is_dir f); [simpl; split; [tauto | intros (H & _); discriminate]|].
  destruct (is_video nm); [|simpl; split; [tauto | intros (_ & H & _); discriminate]].
  destruct (contains_other_season nm season) eqn:Ec;
    [simpl; split; [tauto | intros (_ & _ & H & _); discriminate]|].
  simpl.
  destruct (begin_episode m) as [b|] eqn:Eb.
  2:{ simpl. split; [tauto|]. intros (_ & _ & _ & _ & b & Hb & _). discriminate. }
  assert (Hs : forall P : Prop,
    (if match begin_season m with Some s => s =? season | None => true end && negb (b =? 0)
     then P else False) <->
    ((begin_season m = None \/ begin_season m = Some season) /\ b <> 0 /\ P)).
  { intros P. destruct (begin_season m) as [s|];
      [destruct (Nat.eqb_spec s season) as [->|Hne]|];
      destruct (Nat.eqb_spec b 0) as [->|Hb0]; simpl;
      (split; [intros H; try contradiction; try tauto |
               intros ([H|H] & H0 & HP); try discriminate; try congruence; try tauto]). }
  transitivity ((begin_season m = None \/ begin_season m = Some season) /\ b <> 0 /\
     In ep (b :: match end_episode m with
                 | Some e => if negb (e =? 0) && negb (e =? b) then seq b (S e - b) else []
                 | None => [] end)).
  { rewrite <- Hs. destruct (match begin_season m with
       | Some s => s =? season | None => true end && negb (b =? 0)); simpl; tauto. }
  simpl. split.
  - intros (Hbs & Hb0 & Hin). split; [reflexivity|]. split; [reflexivity|]. split; [reflexivity|].
    split; [exact Hbs|]. exists b. split; [reflexivity|]. split; [exact Hb0|].
    destruct Hin as [->|Hin]; [left; reflexivity|right].
    destruct (end_episode m) as [e|] eqn:He; [|contradiction].
    destruct (Nat.eqb_spec e 0); [contradiction|]. destruct (Nat.eqb_spec e b); [contradiction|].
    cbv [negb andb] in Hin. apply in_seq in Hin. exists e.
    destruct b as [|l]; [contradiction|]. repeat split; auto; lia.
  - intros (_ & _ & _ & Hbs & b' & Hb' & Hb0 & Hep). injection Hb' as <-.
    split; [exact Hbs|]. split; [exact Hb0|].
    destruct Hep as [->|(e & He & He0 & Heb & Hr)]; [left; reflexivity|right].
    rewrite He. destruct (Nat.eqb_spec e 0); [contradiction|]. destruct (Nat.eqb_spec e b); [contradiction|].
    simpl. apply in_seq. destruct b as [|l]; [contradiction|]. lia.
Qed.

(** X10: [check_existing_episodes] returns nothing without a 115 manager or
    when the save directory does not exist ([dir_id = -1]); otherwise an
    episode is reported exactly when some listed non-directory video file
    without another season's tag, whose parsed season is absent or the
    target one, has a nonzero begin episode [b], and the episode is [b]
    or lies in [b..e] for a nonzero end episode [e <> b]. *)
Theorem check_existing_episodes_spec :
  forall has_manager meta_of season dir_id files ep,
  ((has_manager = false \/ dir_id = (-1)%Z) ->
   check_existing_episodes has_manager meta_of season dir_id files = []) /\
  (has_manager = true -> dir_id <> (-1)%Z ->
   (In ep (check_existing_episodes has_manager meta_of season dir_id files) <->
    exists f, In f files /\
      fs_is_dir f = false /\ is_video (fs_file_name f) = true /\
      contains_other_season (fs_file_name f) season = false /\
      (begin_season (meta_of (fs_file_name f)) = None \/
       begin_season (meta_of (fs_file_name f)) = Some season) /\
      exists b, begin_episode (meta_of (fs_file_name f)) = Some b /\ b <> 0 /\
        (ep = b \/ exists e, end_episode (meta_of (fs_file_name f)) = Some e /\
                            e <> 0 /\ e <> b /\ b <= ep <= e))).
Proof.
  intros has_manager meta_of season dir_id files ep. split.
  - intros [->| ->]; unfold check_existing_episodes; [reflexivity|].
    destruct (negb has_manager); reflexivity.
  - intros -> Hd. unfold check_existing_episodes. simpl.
    destruct (Z.eqb_spec dir_id (-1)) as [E|_]; [contradiction|].
    rewrite in_flat_map. split.
    + intros (f & Hf & Hin). exists f. split; [exact Hf|]. apply existing_of_file_spec, Hin.
    + intros (f & Hf & H). exists f. split; [exact Hf|]. apply existing_of_file_spec, H.
Qed.

Lemma check_existing_episodes_spec_witness :
  check_existing_episodes false (fun _ => mkmeta_info None (Some 1) None) 1 0%Z [] = [] /\
  (In 3 (check_existing_episodes true (fun _ => mkmeta_info None (Some 2) (Some 4)) 1 5%Z
          [mkfs_item (Some "Show.E02-E04.mkv") None (PyInt 9) None]) <->
   exists f, In f [mkfs_item (Some "Show.E02-E04.mkv") None (PyInt 9) None] /\
      fs_is_dir f = false /\ is_video (fs_file_name f) = true /\
      contains_other_season (fs_file_name f) 1 = false /\
      (begin_season ((fun _ => mkmeta_info None (Some 2) (Some 4)) (fs_file_name f)) = None \/
       begin_season ((fun _ => mkmeta_info None (Some 2) (Some 4)) (fs_file_name f)) = Some 1) /\
      exists b, begin_episode ((fun _ => mkmeta_info None (Some 2) (Some 4)) (fs_file_name f)) = Some b
        /\ b <> 0 /\
        (3 = b \/ exists e, end_episode ((fun _ => mkmeta_info None (Some 2) (Some 4)) (fs_file_name f)) = Some e /\
                            e <> 0 /\ e <> b /\ b <= 3 <= e)).
Proof.
  split.
  - apply (proj1 (check_existing_episodes_spec false (fun _ => mkmeta_info None (Some 1) None) 1 0%Z [] 0)).
    left. reflexivity.
  - apply (proj2 (check_existing_episodes_spec true (fun _ => mkmeta_info None (Some 2) (Some 4)) 1 5%Z
          [mkfs_item (Some "Show.E02-E04.mkv") None (PyInt 9) None] 3)); [reflexivity | discriminate].
Defined.

(** ** Depth of share listings *)

Lemma sdepth_children_bound : forall i n s d l k,
  (forall x, In x l -> sdepth x <= k) -> sdepth (mksfile i n s d (Some l)) <= S k.
Proof.
  intros i n s d l k. induction l as [|x r IH]; intros H; simpl; [lia|].
  assert (Hx : sdepth x <= k) by (apply H; left; reflexivity).
  assert (Hr : sdepth (mksfile i n s d (Some r)) <= S k)
    by (apply IH; intros y Hy; apply H; right; exact Hy).
  simpl in Hr. lia.
Qed.

Lemma list_share_files_rec_depth : forall iter fuel cid depth max_depth f,
  In f (list_share_files_rec iter fuel cid depth max_depth) ->
  depth + sdepth f <= S max_depth.
Proof.
  intros iter fuel. induction fuel as [|fuel IH]; intros cid depth max_depth f Hin.
  - simpl in Hin. destruct (max_depth <? depth); contradiction.
  - simpl in Hin. destruct (Nat.ltb_spec max_depth depth) as [Hlt|Hge]; [contradiction|].
    apply in_map_iff in Hin. destruct Hin as (it & <- & _).
    destruct (si_is_dir it && (depth <? max_depth)) eqn:E.
    + apply andb_true_iff in E. destruct E as [_ E]. apply Nat.ltb_lt in E.
      assert (Hb : sdepth (mksfile (str_of_nat (si_id it)) (si_name it) (si_size it) (si_is_dir it)
                    (Some (list_share_files_rec iter fuel (si_id it) (S depth) max_depth)))
                   <= S (max_depth - depth)).
      { apply sdepth_children_bound. intros x Hx. apply IH in Hx. lia. }
      lia.
    + simpl. lia.
Qed.

(** X14: [list_share_files] gives [[]] without a client, without valid
    share codes or with [max_depth = 0]; otherwise its top level lists
    the names [share_iterdir] yields for [cid], in order, and no file dict
    in the result nests deeper than [max_depth] levels. *)
Theorem list_share_files_depth :
  forall iter has_client codes_ok cid max_depth,
  ((has_client = false \/ codes_ok = false \/ max_depth = 0) ->
   list_share_files iter has_client codes_ok cid max_depth = []) /\
  (has_client = true -> codes_ok = true -> 1 <= max_depth ->
   map sf_name (list_share_files iter has_client codes_ok cid max_depth) = map si_name (iter cid)) /\
  (forall f, In f (list_share_files iter has_client codes_ok cid max_depth) -> sdepth f <= max_depth).
Proof.
  intros iter has_client codes_ok cid max_depth. split; [|split].
  - intros [->|[->| ->]]; unfold list_share_files; [reflexivity|destruct has_client; reflexivity|].
    destruct has_client, codes_ok; reflexivity.
  - intros -> -> H. unfold list_share_files. simpl.
    destruct (Nat.ltb_spec max_depth 1); [lia|]. rewrite map_map. reflexivity.
  - intros f Hin. unfold list_share_files in Hin.
    destruct has_client, codes_ok; cbn [negb] in Hin; try contradiction.
    apply list_share_files_rec_depth in Hin. lia.
Qed.

Lemma list_share_files_depth_witness :
  map sf_name (list_share_files (fun c => if c =? 0 then [mkshare_item 5 "Movie" 0 true]
                                          else [mkshare_item 6 "m.mkv" 9 false])
                 true true 0 2) = ["Movie"].
Proof.
  apply (proj1 (proj2 (list_share_files_depth
     (fun c => if c =? 0 then [mkshare_item 5 "Movie" 0 true] else [mkshare_item 6 "m.mkv" 9 false])
     true true 0 2))); [reflexivity | reflexivity | lia].
Defined.

(** ** [match_movie_file] (the matcher of [utils]) *)

(** Induction over share-listing trees, through the children lists. *)
Fixpoint sfile_tree_ind (P : sfile -> Prop)
    (Hn : forall i n s d, P (mksfile i n s d None))
    (Hs : forall i n s d l, Forall P l -> P (mksfile i n s d (Some l))) (f : sfile) : P f :=
  match f with
  | mksfile i n s d None => Hn i n s d
  | mksfile i n s d (Some l) =>
      Hs i n s d l
        ((fix go (l : list sfile) : Forall P l :=
            match l with
            | [] => Forall_nil P
            | x :: r => Forall_cons x (sfile_tree_ind P Hn Hs x) (go r)
            end) l)
  end.

Lemma key_le_iff : forall a b,
  key_le a b = true <-> fst a < fst b \/ (fst a = fst b /\ snd a <= snd b).
Proof.
  intros a b. unfold key_le.
  rewrite orb_true_iff, andb_true_iff, Nat.ltb_lt, Nat.eqb_eq, Nat.leb_le. reflexivity.
Qed.

Lemma key_le_false : forall a b,
  key_le a b = false <-> fst b < fst a \/ (fst a = fst b /\ snd b < snd a).
Proof.
  intros a b. destruct (key_le a b) eqn:E.
  - apply key_le_iff in E. split; [discriminate | lia].
  - split; [|reflexivity]. intros _.
    assert (~ (fst a < fst b \/ (fst a = fst b /\ snd a <= snd b)))
      by (intros H; apply key_le_iff in H; congruence).
    lia.
Qed.

Lemma sort_movies_nil : forall l, sort_movies l = [] -> l = [].
Proof.
  intros [|x r]; [reflexivity|]. simpl. destruct (sort_movies r) as [|y s]; simpl; [discriminate|].
  destruct (key_le (movie_key y) (movie_key x)); discriminate.
Qed.

Lemma sort_movies_head : forall l h t,
  sort_movies l = h :: t ->
  (forall y, In y l -> key_le (movie_key y) (movie_key h) = true) /\
  exists pre post, l = (pre ++ h :: post)%list /\
    forall y, In y pre -> key_le (movie_key h) (movie_key y) = false.
Proof.
  induction l as [|x r IH]; intros h t H; [discriminate|].
  simpl in H. destruct (sort_movies r) as [|h' t'] eqn:Er.
  - apply sort_movies_nil in Er. subst r. simpl in H. injection H as <- _.
    split.
    + intros y [<-|[]]. apply key_le_iff. lia.
    + exists [], []. split; [reflexivity | intros y []].
  - destruct (IH h' t' eq_refl) as (Hmax & pre & post & Hl & Hpre).
    simpl in H. destruct (key_le (movie_key h') (movie_key x)) eqn:E.
    + injection H as <- _. split.
      * intros y [<-|Hy]; [apply key_le_iff; lia|].
        apply Hmax in Hy. apply key_le_iff in Hy. apply key_le_iff in E. apply key_le_iff. lia.
      * exists [], r. split; [reflexivity | intros y []].
    + injection H as <- _. split.
      * intros y [<-|Hy]; [|apply Hmax, Hy].
        apply key_le_false in E. apply key_le_iff. lia.
      * exists (x :: pre), post. split; [rewrite Hl; reflexivity|].
        intros y [<-|Hy]; [exact E | apply Hpre, Hy].
Qed.

Lemma collect_video_file_spec : forall re m flt file g sc,
  In (g, sc) (collect_video_file re m flt file) ->
  sf_is_dir g = false /\ is_video (sf_name g) = true /\ m <= sf_size g /\
  match flt with
  | Some f => if has_filters f then filter_match re f (sf_name g) = (true, sc) else sc = 0
  | None => sc = 0
  end.
Proof.
  intros re m flt file. induction file as [i n s d|i n s d l Hl] using sfile_tree_ind;
    intros g sc Hin.
  - simpl in Hin. destruct d; [contradiction|].
    destruct (is_video n) eqn:Ev; [|contradiction]. simpl in Hin.
    destruct (Nat.ltb_spec s m); [contradiction|].
    destruct flt as [f|].
    + destruct (has_filters f) eqn:Eh.
      * destruct (filter_match re f n) as [[|] fs] eqn:Em; [|contradiction].
        destruct Hin as [Hin|[]]. injection Hin as <- <-. simpl. try rewrite Eh. auto.
      * destruct Hin as [Hin|[]]. injection Hin as <- <-. simpl. try rewrite Eh. auto.
    + destruct Hin as [Hin|[]]. injection Hin as <- <-. simpl. auto.
  - simpl in Hin. destruct d.
    + induction Hl as [|x r Hx Hr IHr]; [contradiction|].
      apply in_app_iff in Hin. destruct Hin as [Hin|Hin]; [apply Hx, Hin | apply IHr, Hin].
    + destruct (is_video n) eqn:Ev; [|contradiction]. simpl in Hin.
      destruct (Nat.ltb_spec s m); [contradiction|].
      destruct flt as [f|].
      * destruct (has_filters f) eqn:Eh.
        -- destruct (filter_match re f n) as [[|] fs] eqn:Em; [|contradiction].
           destruct Hin as [Hin|[]]. injection Hin as <- <-. simpl. try rewrite Eh. auto.
        -- destruct Hin as [Hin|[]]. injection Hin as <- <-. simpl. try rewrite Eh. auto.
      * destruct Hin as [Hin|[]]. injection Hin as <- <-. simpl. auto.
Qed.

(** X15: [match_movie_file] returns [None] exactly when no candidate is
    collected; a file it returns is a video file, not a directory, of at
    least [min_size_mb] MiB, passing the subscription filter when there is
    one (with its score); among the candidates, in the order of the
    listing, it is the first one of greatest (filter score, size): every
    candidate before it has a strictly smaller key. *)
Theorem match_movie_file_best :
  forall re files title min_size_mb flt,
  (match_movie_file re files title min_size_mb flt = None <->
   collect_video_files re (min_size_mb * 1024 * 1024) flt files = []) /\
  (forall f, match_movie_file re files title min_size_mb flt = Some f ->
   exists sc pre post,
     collect_video_files re (min_size_mb * 1024 * 1024) flt files = (pre ++ (f, sc) :: post)%list /\
     sf_is_dir f = false /\ is_video (sf_name f) = true /\
     min_size_mb * 1024 * 1024 <= sf_size f /\
     match flt with
     | Some fl => if has_filters fl then filter_match re fl (sf_name f) = (true, sc) else sc = 0
     | None => sc = 0
     end /\
     (forall y, In y (collect_video_files re (min_size_mb * 1024 * 1024) flt files) ->
        fst (movie_key y) < sc \/ (fst (movie_key y) = sc /\ snd (movie_key y) <= sf_size f)) /\
     (forall y, In y pre ->
        fst (movie_key y) < sc \/ (fst (movie_key y) = sc /\ snd (movie_key y) < sf_size f))).
Proof.
  intros re files title min_size_mb flt.
  set (cands := collect_video_files re (min_size_mb * 1024 * 1024) flt files).
  unfold match_movie_file. fold cands. split.
  - destruct (sort_movies cands) as [|[f sc] t] eqn:E.
    + split; [intros _; apply sort_movies_nil, E | reflexivity].
    + split; [discriminate|]. intros Hc. rewrite Hc in E. discriminate.
  - intros f Hf. destruct (sort_movies cands) as [|[f' sc] t] eqn:E; [discriminate|].
    injection Hf as <-.
    destruct (sort_movies_head cands (f', sc) t E) as (Hmax & pre & post & Hl & Hpre).
    assert (Hin : In (f', sc) cands) by (rewrite Hl; apply in_or_app; right; left; reflexivity).
    unfold cands, collect_video_files in Hin. apply in_flat_map in Hin.
    destruct Hin as (file & _ & Hin). apply collect_video_file_spec in Hin.
    exists sc, pre, post. split; [exact Hl|].
    destruct Hin as (H1 & H2 & H3 & H4). split; [exact H1|]. split; [exact H2|].
    split; [exact H3|]. split; [exact H4|]. split.
    + intros y Hy. apply Hmax in Hy. apply key_le_iff in Hy. exact Hy.
    + intros y Hy. apply Hpre in Hy. apply key_le_false in Hy. unfold movie_key in *. simpl in *. lia.
Qed.

Lemma match_movie_file_best_witness :
  let files := [mksfile "1" "a.mkv" 20 false None;
                mksfile "2" "Sub" 0 true (Some [mksfile "3" "b.mkv" 30 false None]);
                mksfile "4" "c.txt" 90 false None] in
  match_movie_file (fun _ _ => false) files "A" 0 None = Some (mksfile "3" "b.mkv" 30 false None) /\
  exists sc pre post,
     collect_video_files (fun _ _ => false) (0 * 1024 * 1024) None files =
       (pre ++ (mksfile "3" "b.mkv" 30 false None, sc) :: post)%list /\
     sf_is_dir (mksfile "3" "b.mkv" 30 false None) = false /\
     is_video (sf_name (mksfile "3" "b.mkv" 30 false None)) = true /\
     0 * 1024 * 1024 <= sf_size (mksfile "3" "b.mkv" 30 false None) /\
     sc = 0 /\
     (forall y, In y (collect_video_files (fun _ _ => false) (0 * 1024 * 1024) None files) ->
        fst (movie_key y) < sc \/ (fst (movie_key y) = sc /\ snd (movie_key y) <= 30)) /\
     (forall y, In y pre ->
        fst (movie_key y) < sc \/ (fst (movie_key y) = sc /\ snd (movie_key y) < 30)).
Proof.
  intros files. split; [vm_compute; reflexivity|].
  exact (proj2 (match_movie_file_best (fun _ _ => false) files "A" 0 None)
           (mksfile "3" "b.mkv" 30 false None) ltac:(vm_compute; reflexivity)).
Defined.

(** ** The episodes still to transfer *)

Lemma opt_nat_eqb_iff : forall a b, opt_nat_eqb a b = true <-> a = b.
Proof.
  intros [x|] [y|]; simpl; split; intros H; try discriminate; try reflexivity.
  - apply Nat.eqb_eq in H. subst. reflexivity.
  - injection H as ->. apply Nat.eqb_refl.
Qed.


Lemma score_lookup_assign : forall x k v d,
  score_lookup x (score_assign k v d) = if opt_nat_eqb k x then Some v else score_lookup x d.
Proof.
  intros x k v d. induction d as [|[k' v'] r IH]; simpl; [destruct (opt_nat_eqb k x); reflexivity|].
  destruct (opt_nat_eqb k' k) eqn:E1; simpl.
  - apply opt_nat_eqb_iff in E1. subst k'. destruct (opt_nat_eqb k x); reflexivity.
  - rewrite IH. destruct (opt_nat_eqb k' x) eqn:E2, (opt_nat_eqb k x) eqn:E3; try reflexivity.
    apply opt_nat_eqb_iff in E2. apply opt_nat_eqb_iff in E3. subst.
    rewrite (proj2 (opt_nat_eqb_iff x x) eq_refl) in E1. discriminate.
Qed.



Lemma scan_step_lookup : forall best title season acc h x,
  score_lookup x (snd (scan_step best title season acc h)) =
  if hist_ok title season h && best && negb (h_perfect_match h) && opt_nat_eqb (h_episode h) x
  then Some (match score_lookup x (snd acc) with
             | None => h_filter_score h
             | Some old => Nat.max old (h_filter_score h)
             end)
  else score_lookup x (snd acc).
Proof.
  intros best title season [tr sc] h x. unfold scan_step.
  destruct (hist_ok title season h); simpl; [|reflexivity].
  destruct best; simpl; [|reflexivity].
  destruct (h_perfect_match h); simpl; [reflexivity|].
  destruct (opt_nat_eqb (h_episode h) x) eqn:E.
  - apply opt_nat_eqb_iff in E. subst x.
    destruct (score_lookup (h_episode h) sc) as [old|] eqn:El.
    + destruct (Nat.ltb_spec old (h_filter_score h)); simpl.
      * rewrite score_lookup_assign, (proj2 (opt_nat_eqb_iff _ _) eq_refl). f_equal. lia.
      * rewrite El. f_equal. lia.
    + simpl. rewrite score_lookup_assign, (proj2 (opt_nat_eqb_iff _ _) eq_refl). reflexivity.
  - destruct (score_lookup (h_episode h) sc) as [old|];
      [destruct (old <? h_filter_score h)|]; simpl; try reflexivity;
      rewrite score_lookup_assign, E; reflexivity.
Qed.

Lemma scan_fold_scores : forall best title season hs acc x,
  match score_lookup x (snd (fold_left (scan_step best title season) hs acc)) with
  | None => score_lookup x (snd acc) = None /\
            forall h, In h hs -> hist_ok title season h = true -> h_episode h = x ->
                      h_perfect_match h = false -> best = false
  | Some s =>
      (score_lookup x (snd acc) = Some s \/
       exists h, In h hs /\ hist_ok title season h = true /\ h_episode h = x /\
                 h_perfect_match h = false /\ best = true /\ h_filter_score h = s) /\
      (forall s0, score_lookup x (snd acc) = Some s0 -> s0 <= s) /\
      (forall h, In h hs -> hist_ok title season h = true -> h_episode h = x ->
                 h_perfect_match h = false -> best = true -> h_filter_score h <= s)
  end.
Proof.
  intros best title season hs. induction hs as [|h hs IH]; intros acc x; simpl.
  - destruct (score_lookup x (snd acc)) as [s|].
    + split; [left; reflexivity|]. split; [intros s0 H; injection H as ->; lia | intros h []].
    + split; [reflexivity | intros h []].
  - specialize (IH (scan_step best title season acc h) x).
    rewrite scan_step_lookup in IH.
    destruct (hist_ok title season h && best && negb (h_perfect_match h) &&
              opt_nat_eqb (h_episode h) x) eqn:E.
    + apply andb_true_iff in E. destruct E as [E Ex]. apply opt_nat_eqb_iff in Ex.
      apply andb_true_iff in E. destruct E as [E Ep]. apply negb_true_iff in Ep.
      apply andb_true_iff in E. destruct E as [Eok Eb]. subst best.
      destruct (score_lookup x (snd (fold_left (scan_step true title season) hs
                  (scan_step true title season acc h)))) as [s|].
      * destruct IH as (Hsrc & Hge & Hhs).
        assert (Hm : match score_lookup x (snd acc) with
                     | None => h_filter_score h
                     | Some old => Nat.max old (h_filter_score h) end <= s) by (apply Hge; reflexivity).
        split; [|split].
        -- destruct Hsrc as [Hs|(h' & Hh' & H')].
           ++ injection Hs as Hs. destruct (score_lookup x (snd acc)) as [old|] eqn:Eo.
              ** destruct (Nat.max_spec old (h_filter_score h)) as [[_ Hmx]|[_ Hmx]];
                   rewrite Hmx in Hs; [right; exists h; repeat split; auto; try (left; reflexivity)
                                     | left; rewrite Hs; reflexivity].
              ** right. exists h. repeat split; auto; try (left; reflexivity).
           ++ right. exists h'. split; [right; exact Hh' | exact H'].
        -- intros s0 Hs0. rewrite Hs0 in Hm. lia.
        -- intros h' [<-|Hh'] Hok Hx Hp _.
           ++ destruct (score_lookup x (snd acc)); lia.
           ++ apply Hhs; auto.
      * discriminate (proj1 IH).
    + destruct (score_lookup x (snd (fold_left (scan_step best title season) hs
                  (scan_step best title season acc h)))) as [s|].
      * destruct IH as (Hsrc & Hge & Hhs). split; [|split].
        -- destruct Hsrc as [Hs|(h' & Hh' & H')]; [left; exact Hs|].
           right. exists h'. split; [right; exact Hh' | exact H'].
        -- exact Hge.
        -- intros h' [<-|Hh'] Hok Hx Hp Hb; [|apply Hhs; auto].
           subst. rewrite Hok, Hp, (proj2 (opt_nat_eqb_iff _ _) eq_refl) in E. discriminate.
      * destruct IH as (Hn & Hhs). split; [exact Hn|].
        intros h' [<-|Hh'] Hok Hx Hp; [|apply (Hhs h'); auto].
        destruct best; [|reflexivity]. subst.
        rewrite Hok, Hp, (proj2 (opt_nat_eqb_iff _ _) eq_refl) in E. discriminate.
Qed.



(** X17: [episode_history_scores] stays empty without best-version mode;
    in best-version mode it maps an episode to [s] exactly when some
    successful non-perfect record of this title and season for that
    episode has filter score [s] and no such record scores higher: it
    keeps the highest score seen, the bar a new match must beat. *)
Theorem episode_history_scores_max : forall title season history x s,
  score_lookup x (snd (scan_history false title season history)) = None /\
  (score_lookup x (snd (scan_history true title season history)) = Some s <->
   (exists h, In h history /\ hist_ok title season h = true /\ h_episode h = x /\
              h_perfect_match h = false /\ h_filter_score h = s) /\
   (forall h, In h history -> hist_ok title season h = true -> h_episode h = x ->
              h_perfect_match h = false -> h_filter_score h <= s)).
Proof.
  intros title season history x s. split.
  - pose proof (scan_fold_scores false title season history ([], []) x) as H.
    unfold scan_history.
    destruct (score_lookup x (snd (fold_left (scan_step false title season) history ([], []))))
      as [s'|]; [|reflexivity].
    destruct H as ([Hs|(h & _ & _ & _ & _ & Hb & _)] & _); discriminate.
  - pose proof (scan_fold_scores true title season history ([], []) x) as H.
    unfold scan_history.
    destruct (score_lookup x (snd (fold_left (scan_step true title season) history ([], []))))
      as [s'|].
    + destruct H as ([Hs|(h & Hh & Hok & Hx & Hp & _ & Hsc)] & _ & Hall); [discriminate|].
      split.
      * intros E. injection E as <-. split; [exists h; auto|].
        intros h' Hh' Hok' Hx' Hp'. apply (Hall h'); auto.
      * intros ((h' & Hh' & Hok' & Hx' & Hp' & Hsc') & Hle).
        assert (s' <= s) by (rewrite <- Hsc; apply (Hle h); auto).
        assert (s <= s') by (rewrite <- Hsc'; apply (Hall h'); auto).
        f_equal. lia.
    + destruct H as (_ & Hn). split; [discriminate|].
      intros ((h & Hh & Hok & Hx & Hp & _) & _). discriminate (Hn h Hh Hok Hx Hp).
Qed.


Lemma episode_history_scores_max_witness :
  score_lookup (Some 2) (snd (scan_history true "Show" 1 sample_history)) = Some 100.
Proof.
  apply (proj2 (proj2 (episode_history_scores_max "Show" 1 sample_history (Some 2) 100))).
  split.
  - exists (mkhistory_item "Show" (Some 1) (Some 2) status_success "u" "Show.S01E02.mkv" 100 false "t").
    split; [left; reflexivity|]. split; [vm_compute; reflexivity|]. auto.
  - intros h [<-|[<-|[]]] _ _ Hp; simpl in *; [lia | discriminate].
Defined.

(** ** The request counter and [_call] *)









(** ** C7 *)




(** ** C2 *)



